(** * OpenAlternative: presentation logic of the web application

    A shallow embedding of the components whose behaviour the specification
    pins down:

    - [SearchBox]        (app/routes/_index/SearchBox.tsx): the debounced
                         search input;
    - [AlternativePage]  (app/(web)/alternatives/[slug]/page.tsx): record
                         lookup, page metadata, category ranking, top-5 tools;
    - [ToolBadges]       (tool badges component): the "new" and "fresh" badges;
    - [Breadcrumbs]      (components/web/ui/breadcrumbs.tsx): the navigation
                         trail and its JSON-LD graph.

    Definitions come first, the theorems about them follow. *)

From Stdlib Require Import List String Ascii Arith NArith ZArith Bool Lia.
From Stdlib Require Import DecimalString Sorted Permutation.
Import ListNotations.
Open Scope string_scope.

(* ===================================================================== *)
(** ** SearchBox *)
(* ===================================================================== *)

Module SearchBox.

(** The second argument of [useDebounce(searchQuery, 250)], in ms. *)
Definition delay : nat := 250.

(** The pending [setTimeout] of the debounce hook: when it was armed and the
    value its callback closes over. *)
Record Timer := mkTimer { armedAt : nat; captured : string }.

(** The component between two events.  [now] is the clock in ms.
    [searchQuery] is the [useState] cell bound to the input,
    [debouncedSearchTerm] the value returned by [useDebounce], [timer] the
    hook's pending timeout.  [refined] logs the calls [refine(v)] with the time
    of the call, most recent first.  [lastChange] is a history variable: the
    time at which [searchQuery] last took a new value. *)
Record State := mkState {
  now : nat;
  searchQuery : string;
  debouncedSearchTerm : string;
  timer : option Timer;
  refined : list (nat * string);
  lastChange : nat
}.

(** What can happen to the mounted component. *)
Inductive Event :=
| Change (v : string)   (* onChange={(e) => setSearchQuery(e.currentTarget.value)} *)
| Reset                 (* onReset={() => setSearchQuery("")} *)
| Elapse (d : nat)      (* d ms pass and no callback runs *)
| Fire.                 (* the event loop runs the timeout callback, if it is due *)

(** [refine(v)]: the query [v] is submitted to the search index. *)
Definition refine (v : string) (s : State) : State :=
  mkState (now s) (searchQuery s) (debouncedSearchTerm s) (timer s)
          ((now s, v) :: refined s) (lastChange s).

(** Modelled from the spec: the hook [useDebounce] of @uidotdev/usehooks is
    imported by SearchBox.tsx and is not part of the sources.  "After a fixed
    quiet period (250ms) following the last keystroke, submits the current
    text": the hook keeps a state cell and, in an effect keyed on the value,
    arms a timeout of [delay] ms that stores the value in the cell; the
    effect's cleanup cancels the timeout armed for the previous value.  This is
    the effect running again because [searchQuery] changed; the render and
    the effects it triggers are one step of the component. *)
Definition useDebounce_rearm (v : string) (s : State) : State :=
  mkState (now s) v (debouncedSearchTerm s)
          (Some (mkTimer (now s) v)) (refined s) (now s).

(** [setSearchQuery(v)].  Setting a state cell to the value it already holds
    does not render again, so no effect runs and the pending timeout stays. *)
Definition setSearchQuery (v : string) (s : State) : State :=
  if String.eqb v (searchQuery s) then s else useDebounce_rearm v s.

(** [setDebouncedValue(v)] inside the hook, followed by the render it causes:
    the effect [useEffect(() => { refine(debouncedSearchTerm) },
    [debouncedSearchTerm, refine])] of SearchBox.tsx runs again exactly when
    the debounced term is a new value ([refine] is the stable callback of
    [useSearchBox]). *)
Definition setDebouncedValue (v : string) (s : State) : State :=
  if String.eqb v (debouncedSearchTerm s) then s
  else refine v (mkState (now s) (searchQuery s) v (timer s)
                         (refined s) (lastChange s)).

(** Modelled from the spec: the timeout callback of [useDebounce]; a timeout
    armed at [t] cannot run before [t + delay]. *)
Definition useDebounce_timeout (s : State) : State :=
  match timer s with
  | Some tm =>
      if (armedAt tm + delay <=? now s)%nat
      then setDebouncedValue (captured tm)
             (mkState (now s) (searchQuery s) (debouncedSearchTerm s) None
                      (refined s) (lastChange s))
      else s
  | None => s
  end.

Definition elapse (d : nat) (s : State) : State :=
  mkState (now s + d) (searchQuery s) (debouncedSearchTerm s) (timer s)
          (refined s) (lastChange s).

Definition step (s : State) (e : Event) : State :=
  match e with
  | Change v => setSearchQuery v s
  | Reset => setSearchQuery "" s
  | Elapse d => elapse d s
  | Fire => useDebounce_timeout s
  end.

Definition run (s : State) (evs : list Event) : State := fold_left step evs s.

(** The component right after it is mounted with the index's current [query]:
    [useState(query)], the hook's cell initialised to the same value, its
    first timeout armed, and the mount effect [refine(query)] already run. *)
Definition mount (query : string) : State :=
  mkState 0 query query (Some (mkTimer 0 query)) [(0, query)] 0.

(** Events during which the user leaves the input alone. *)
Definition quiet (e : Event) : bool :=
  match e with
  | Elapse _ | Fire => true
  | Change _ | Reset => false
  end.

(** Total time that passes during a list of events. *)
Fixpoint elapsed (evs : list Event) : nat :=
  match evs with
  | [] => 0
  | Elapse d :: evs' => d + elapsed evs'
  | _ :: evs' => elapsed evs'
  end.

(** A burst of typing: each keystroke is followed by a gap of quiet events. *)
Definition typing (ks : list (string * list Event)) : list Event :=
  flat_map (fun k => Change (fst k) :: snd k) ks.

(** [rapid cur ks vlast]: starting from the text [cur], every keystroke of
    [ks] and then [vlast] changes the text, and each gap before the next
    keystroke is shorter than [delay]. *)
Fixpoint rapid (cur : string) (ks : list (string * list Event))
  (vlast : string) : bool :=
  match ks with
  | [] => negb (String.eqb vlast cur)
  | k :: ks' =>
      negb (String.eqb (fst k) cur) && forallb quiet (snd k)
      && (elapsed (snd k) <? delay)%nat && rapid (fst k) ks' vlast
  end.

(** The invariant of the mounted component: a pending timeout was armed by
    the last change of the text and carries the current text; once the
    timeout has run, the debounced term is the current text; and the query
    last submitted is the debounced term. *)
Definition Inv (s : State) : Prop :=
  match timer s with
  | Some tm =>
      captured tm = searchQuery s /\ armedAt tm = lastChange s
      /\ armedAt tm <= now s
  | None => debouncedSearchTerm s = searchQuery s
  end
  /\ exists t rest, refined s = (t, debouncedSearchTerm s) :: rest.

(** The reset claim read literally, from a prior state [s]: the text is
    cleared, and while the user leaves the input alone the empty query gets
    submitted. *)
Definition reset_submits_empty (s : State) : Prop :=
  searchQuery (step s Reset) = ""
  /\ exists tail t,
       forallb quiet tail = true
       /\ refined (run (step s Reset) tail) = (t, "") :: refined s.

(** *** The controls next to the input *)

(** [status] of [useInstantSearch()]. *)
Inductive Status := idle | loading | stalled | error.

(** What the form shows: the value of the controlled input and which of the
    buttons and icons are rendered. *)
Record Controls := mkControls {
  inputValue : string;     (* value={searchQuery} *)
  resetButton : bool;      (* !!searchQuery.length && !isSearchStalled *)
  loaderIcon : bool;       (* isSearchStalled *)
  searchButton : bool
}.

Definition controls (s : State) (status : Status) : Controls :=
  let isSearchStalled :=
    match status with stalled => true | _ => false end in
  mkControls (searchQuery s)
    (negb (String.length (searchQuery s) =? 0)%nat && negb isSearchStalled)
    isSearchStalled
    true.

(** No two neighbours in the log of submitted queries carry the same
    query. *)
Fixpoint distinct_neighbours (l : list (nat * string)) : Prop :=
  match l with
  | a :: (b :: _) as l' => snd a <> snd b /\ distinct_neighbours l'
  | _ => True
  end.

End SearchBox.

(* ===================================================================== *)
(** ** AlternativePage *)
(* ===================================================================== *)

Module AlternativePage.

(** *** Payloads *)

(** The [Category] record of the relational schema, with the fields the page
    reads. *)
Record Category := mkCategory {
  category_id : string;
  category_name : string;
  category_slug : string;
  category_label : option string
}.

(** A tool as [findToolsWithCategories] returns it; [tool_categories] holds
    the [category] of each join record, in the order of the payload. *)
Record Tool := mkTool {
  tool_id : string;
  tool_name : string;
  tool_slug : string;
  tool_faviconUrl : option string;
  tool_categories : list Category
}.

(** [AlternativeOne]; [alt_count_tools] is [alternative._count.tools]. *)
Record Alternative := mkAlternative {
  alt_name : string;
  alt_slug : string;
  alt_count_tools : nat
}.

(** *** Numbers in template literals *)

(** [`${n}`] for a count or a year: the decimal digits. *)
Definition string_of_nat (n : nat) : string :=
  NilEmpty.string_of_uint (Nat.to_uint n).

(** *** The accumulator object of the category reduction *)

(** The value stored under a category name: [{ count, category }]. *)
Record Entry := mkEntry { count : nat; category : Category }.

(** The object [acc], created by the literal [{}]: its own properties, in
    the order in which they were created. *)
Definition Obj := list (string * Entry).

(** The properties every object literal inherits from [Object.prototype].
    Reading one of these names from [acc] finds the inherited member. *)
Definition inherited (k : string) : bool :=
  existsb (String.eqb k)
    ["constructor"; "__proto__"; "hasOwnProperty"; "isPrototypeOf";
     "propertyIsEnumerable"; "toLocaleString"; "toString"; "valueOf";
     "__defineGetter__"; "__defineSetter__"; "__lookupGetter__";
     "__lookupSetter__"].

Fixpoint own (acc : Obj) (k : string) : option Entry :=
  match acc with
  | [] => None
  | (k', e) :: acc' => if String.eqb k k' then Some e else own acc' k
  end.

(** What the expression [acc[k]] evaluates to. *)
Inductive Value :=
| VEntry (e : Entry)     (* an own property *)
| VInherited             (* a member of Object.prototype: an object *)
| VUndefined.

Definition obj_get (acc : Obj) (k : string) : Value :=
  match own acc k with
  | Some e => VEntry e
  | None => if inherited k then VInherited else VUndefined
  end.

(** Objects are truthy, [undefined] is not. *)
Definition truthy (v : Value) : bool :=
  match v with
  | VEntry _ | VInherited => true
  | VUndefined => false
  end.

(** [acc[k] = e]: an existing own property keeps its place, a new one is
    created after the others. *)
Fixpoint obj_set (acc : Obj) (k : string) (e : Entry) : Obj :=
  match acc with
  | [] => [(k, e)]
  | (k', e') :: acc' =>
      if String.eqb k k' then (k', e) :: acc'
      else (k', e') :: obj_set acc' k e
  end.

(** [acc[k].count += 1]: the object found under [k] is updated in place.
    When [k] is not an own property the object found is a member of
    [Object.prototype] and [acc] is left as it is. *)
Fixpoint obj_incr (acc : Obj) (k : string) : Obj :=
  match acc with
  | [] => []
  | (k', e) :: acc' =>
      if String.eqb k k' then (k', mkEntry (count e + 1) (category e)) :: acc'
      else (k', e) :: obj_incr acc' k
  end.

(** The body of the loop [for (const { category } of categories)]. *)
Definition visit (acc : Obj) (c : Category) : Obj :=
  let k := category_name c in
  let acc1 :=
    if negb (truthy (obj_get acc k)) then obj_set acc k (mkEntry 0 c)
    else acc in
  obj_incr acc1 k.

(** The callback of [tools.reduce]. *)
Definition reducer (acc : Obj) (t : Tool) : Obj :=
  fold_left visit (tool_categories t) acc.

(** *** Property order of an object *)

Definition digit (c : ascii) : option N :=
  let n := N_of_ascii c in
  if ((48 <=? n) && (n <=? 57))%N then Some (n - 48)%N else None.

Fixpoint digits (s : string) (acc : N) : option N :=
  match s with
  | EmptyString => Some acc
  | String c s' =>
      match digit c with
      | Some d => digits s' (10 * acc + d)%N
      | None => None
      end
  end.

(** A property name is an array index when it is the canonical decimal
    spelling of an integer below 2^32 - 1. *)
Definition array_index (k : string) : option N :=
  match k with
  | EmptyString => None
  | String "0"%char EmptyString => Some 0%N
  | String "0"%char _ => None
  | _ =>
      match digits k 0 with
      | Some n => if (n <? 4294967295)%N then Some n else None
      | None => None
      end
  end.

Definition is_index (p : string * Entry) : bool :=
  match array_index (fst p) with Some _ => true | None => false end.

Definition index_of (p : string * Entry) : N :=
  match array_index (fst p) with Some n => n | None => 0%N end.

(** Stable insertion sort: an element is put in front of the first one it
    may precede. *)
Fixpoint insert {A} (before : A -> A -> bool) (x : A) (l : list A) : list A :=
  match l with
  | [] => [x]
  | y :: l' => if before x y then x :: l else y :: insert before x l'
  end.

Fixpoint sort {A} (before : A -> A -> bool) (l : list A) : list A :=
  match l with
  | [] => []
  | x :: l' => insert before x (sort before l')
  end.

(** The own properties of an object in the order of their enumeration: the
    array indices first, in ascending numeric order, and then the other
    names in the order of their creation. *)
Definition enumeration (acc : Obj) : list (string * Entry) :=
  (sort (fun p q => (index_of p <=? index_of q)%N) (filter is_index acc)
   ++ filter (fun p => negb (is_index p)) acc)%list.

(** [Object.values(acc)] *)
Definition Object_values (acc : Obj) : list Entry := map snd (enumeration acc).

(** [.sort((a, b) => b.count - a.count)]: the comparator is negative, and
    [a] is placed first, when [a.count > b.count]; [Array.prototype.sort] is
    stable, so entries with the same count keep their order. *)
Definition sort_by_count (l : list Entry) : list Entry :=
  sort (fun a b => count b <=? count a)%nat l.

(** [const categories = Object.values(tools.reduce(..., {})).sort(...)] *)
Definition categories (tools : list Tool) : list Entry :=
  sort_by_count (Object_values (fold_left reducer tools [])).

(** *** Links and sentences *)

Record Link := mkLink { link_key : string; link_href : string; link_text : string }.

(** [l.slice(start, end)] for non-negative integer bounds. *)
Definition slice {A} (start end_ : nat) (l : list A) : list A :=
  firstn (end_ - start) (skipn start l).

(** [l.shift()]: the first element is removed from the array and returned. *)
Definition shift {A} (l : list A) : option A * list A :=
  match l with
  | [] => (None, [])
  | x :: l' => (Some x, l')
  end.

Definition bestTools (tools : list Tool) : list Link :=
  map (fun t => mkLink (tool_id t) ("/" ++ tool_slug t) (tool_name t))
      (slice 0 5 tools).

Definition bestCategories (tools : list Tool) : list Link :=
  map (fun e =>
         let c := category e in
         mkLink (category_id c) ("/categories/" ++ category_slug c)
           (match category_label c with
            | Some "" | None => category_name c
            | Some l => l
            end))
      (slice 0 3 (categories tools)).

Inductive Fragment :=
| Text (s : string)
| Anchor (l : Link).

(** The [links.map((x, index) => ...)] of both sentences: a comma before
    every link but the first and the last, [last] before the last one. *)
Definition enumerate (last : string) (links : list Link) : list Fragment :=
  let n := List.length links in
  flat_map
    (fun p =>
       let index := fst p in
       ((if (0 <? index)%nat && negb (index =? n - 1)%nat
         then [Text ", "] else [])
        ++ (if (0 <? index)%nat && (index =? n - 1)%nat
            then [Text last] else [])
        ++ [Anchor (snd p)])%list)
    (combine (seq 0 n) links).

(** *** Dates of the metadata *)

(** A calendar date; months are numbered from 0 as in JavaScript. *)
Record Date := mkDate { date_year : nat; date_month : nat; date_day : nat }.

(** [getYear(addMonths(date, n))]: the day of the month is clamped to the
    length of the target month and has no influence on the year. *)
Definition getYear_addMonths (d : Date) (n : nat) : nat :=
  date_year d + (date_month d + n) / 12.

Record Metadata := mkMetadata { title : string; description : string }.

Definition getMetadata (today : Date) (alternative : Alternative) : Metadata :=
  let year := getYear_addMonths today 1 in
  let count := alt_count_tools alternative in
  mkMetadata
    ((if (1 <? count)%nat then string_of_nat count ++ " " else "")
     ++ "Best Open Source " ++ alt_name alternative ++ " Alternatives in "
     ++ string_of_nat year)
    ("A curated collection of the best open source alternatives to "
     ++ alt_name alternative
     ++ ". Each listing includes a website screenshot along with a detailed review of its features.").

(** *** The rendered page *)

Record MenuItem := mkMenuItem {
  menu_id : string;
  menu_title : string;
  menu_medal : option string
}.

Definition medalColors : list string :=
  ["text-amber-500"; "text-slate-400"; "text-orange-700"].

(** The [<Section>] with the tool list. *)
Record SectionView := mkSection {
  bestTool : option Link;            (* bestTools.shift() *)
  otherTools : list Fragment;        (* the "Other interesting ..." sentence *)
  otherToolLinks : list Link;        (* bestTools after the shift *)
  mainCategory : option Link;        (* bestCategories.shift() *)
  otherCategories : list Fragment;
  shareTitle : string;
  toolEntries : list Tool;
  inlineMenu : list MenuItem
}.

Record Page := mkPage {
  introTitle : string;
  introDescription : string;
  section : option SectionView
}.

Definition render (today : Date) (alternative : Alternative)
  (tools : list Tool) : Page :=
  let name := alt_name alternative in
  let best := shift (bestTools tools) in
  let cats := shift (bestCategories tools) in
  mkPage
    ("Open Source " ++ name ++ " Alternatives")
    (if (alt_count_tools alternative =? 0)%nat
     then "No open source " ++ name ++ " alternatives found yet."
     else "A curated collection of the "
          ++ string_of_nat (alt_count_tools alternative)
          ++ " best open source alternatives to " ++ name ++ ".")
    (if (List.length tools =? 0)%nat then None
     else Some
       (mkSection
          (fst best)
          (enumerate " and " (snd best))
          (snd best)
          (fst cats)
          (enumerate " or " (snd cats))
          (title (getMetadata today alternative))
          tools
          (map (fun p =>
                  mkMenuItem (tool_slug (snd p)) (tool_name (snd p))
                    (if (fst p <? 3)%nat then nth_error medalColors (fst p)
                     else None))
               (combine (seq 0 (List.length tools)) tools)))).

(** *** Record lookup *)

(** How a request to the page ends: with a rendered result, or with the
    framework's not-found response, which [notFound()] raises. *)
Inductive Response (A : Type) :=
| Rendered (a : A)
| NotFound.
Arguments Rendered {A} a.
Arguments NotFound {A}.

Definition bind {A B} (r : Response A) (k : A -> Response B) : Response B :=
  match r with
  | Rendered a => k a
  | NotFound => NotFound
  end.

Section DataLayer.

(** The queries of the data layer, keyed by the requested slug:
    [findAlternative({ where: { slug } })] returns a record or [null]. *)
Variable findAlternative : string -> option Alternative.
Variable findToolsWithCategories : string -> list Tool.

Definition getAlternative (slug : string) : Response Alternative :=
  match findAlternative slug with
  | None => NotFound
  | Some alternative => Rendered alternative
  end.

(** [Promise.all([getAlternative(props), findToolsWithCategories(...)])]
    rejects when [getAlternative] does, and nothing is rendered. *)
Definition AlternativePage (today : Date) (slug : string) : Response Page :=
  bind (getAlternative slug) (fun alternative =>
  Rendered (render today alternative (findToolsWithCategories slug))).

(** The metadata with the canonical URL added. *)
Definition generateMetadata (today : Date) (slug : string)
  : Response (Metadata * string) :=
  bind (getAlternative slug) (fun alternative =>
  Rendered (getMetadata today alternative,
            "/alternatives/" ++ alt_slug alternative)).

End DataLayer.

(** *** Vocabulary of the ranking claim *)

Definition entry_name (e : Entry) : string := category_name (category e).

(** The category names in the order in which the reduction meets them. *)
Definition names (tools : list Tool) : list string :=
  flat_map (fun t => map category_name (tool_categories t)) tools.

(** Position of the first occurrence of [k] ([length l] when absent). *)
Fixpoint first_index (k : string) (l : list string) : nat :=
  match l with
  | [] => 0
  | k' :: l' => if String.eqb k k' then 0 else S (first_index k l')
  end.

(** Number of tools that carry a category named [k]. *)
Definition tools_with (k : string) (tools : list Tool) : nat :=
  List.length (filter (fun t => existsb (String.eqb k)
                             (map category_name (tool_categories t))) tools).

(** A tool is joined to a category at most once. *)
Definition well_formed (tools : list Tool) : Prop :=
  Forall (fun t => NoDup (map category_name (tool_categories t))) tools.

(** The ranking claim read literally, for a non-empty list of well-formed
    tools: wherever [a] comes before [b] in the ranking, [a] has at least as
    many tools as [b], and with equally many [a]'s name was met first. *)
Definition ranked_by_count_then_encounter (tools : list Tool) : Prop :=
  tools <> [] -> well_formed tools ->
  forall l1 a l2 b l3,
    categories tools = (l1 ++ a :: l2 ++ b :: l3)%list ->
    tools_with (entry_name b) tools <= tools_with (entry_name a) tools
    /\ (tools_with (entry_name a) tools = tools_with (entry_name b) tools ->
        first_index (entry_name a) (names tools)
        < first_index (entry_name b) (names tools)).

(** What the reduction has built after meeting the category names [ns]:
    the properties are the names met that are not inherited members, each
    once, in the order in which they were first met, and each holds the
    number of times its name was met. *)
Definition Accumulated (ns : list string) (acc : Obj) : Prop :=
  NoDup (map fst acc)
  /\ (forall k e, own acc k = Some e ->
        entry_name e = k /\ count e = count_occ string_dec ns k /\ In k ns)
  /\ (forall k, own acc k = None -> inherited k = false -> ~ In k ns)
  /\ StronglySorted (fun a b => first_index a ns < first_index b ns)
       (map fst acc).

(** The order in which an object enumerates two of its property names. *)
Definition own_order (encounter : list string) (ka kb : string) : Prop :=
  match array_index ka, array_index kb with
  | Some i, Some j => (i <= j)%N
  | Some _, None => True
  | None, Some _ => False
  | None, None => first_index ka encounter < first_index kb encounter
  end.

(** The links of a sentence, in the order in which they are read. *)
Fixpoint anchors (fs : list Fragment) : list Link :=
  match fs with
  | [] => []
  | Anchor l :: fs' => l :: anchors fs'
  | Text _ :: fs' => anchors fs'
  end.

(** The categories of the tools in the order in which the reduction meets
    them. *)
Definition encountered (tools : list Tool) : list Category :=
  flat_map tool_categories tools.

(** *** Adding months *)

Definition isLeapYear (y : nat) : bool :=
  ((y mod 4 =? 0)%nat && negb (y mod 100 =? 0)%nat) || (y mod 400 =? 0)%nat.

(** Number of days of month [m] (numbered from 0) of year [y]. *)
Definition daysInMonth (y m : nat) : nat :=
  match m with
  | 1 => if isLeapYear y then 29 else 28
  | 3 | 5 | 8 | 10 => 30
  | _ => 31
  end.

(** [date.setMonth(m + 1, 0)] on a date of year [y]: the last day of month
    [m], a month beyond December being carried into the year. *)
Definition endOfMonth (y m : nat) : Date :=
  let y' := y + m / 12 in
  let m' := m mod 12 in
  mkDate y' m' (daysInMonth y' m').

(** Modelled from the spec: [addMonths] of date-fns is imported by the page
    and is not part of the sources; the metadata builder uses it for the
    year of the title.  The last day of the desired month is computed; a day
    of the month that does not exist there is clamped to it, otherwise the
    day of the month is kept. *)
Definition addMonths (date : Date) (amount : nat) : Date :=
  if (amount =? 0)%nat then date
  else
    let endOfDesiredMonth :=
      endOfMonth (date_year date) (date_month date + amount) in
    if (date_day endOfDesiredMonth <=? date_day date)%nat
    then endOfDesiredMonth
    else mkDate (date_year endOfDesiredMonth) (date_month endOfDesiredMonth)
                (date_day date).

(** [getYear(date)] *)
Definition getYear (date : Date) : nat := date_year date.

End AlternativePage.

(* ===================================================================== *)
(** ** ToolBadges *)
(* ===================================================================== *)

Module ToolBadges.

(** A [Date] value: milliseconds since the epoch. *)
Definition Date := Z.

(** The fields of [ToolMany] the badges read; both dates may be [null]. *)
Record ToolMany := mkToolMany {
  firstCommitDate : option Date;
  publishedAt : option Date
}.

Inductive Icon := SparklesIcon | BellPlusIcon.

(** What the [<Stack>] holds: tooltips around an icon, then the children
    passed to the component. *)
Inductive Node (C : Type) :=
| Tooltip (tooltip : string) (icon : Icon)
| Child (c : C).
Arguments Tooltip {C} tooltip icon.
Arguments Child {C} c.

Definition newBadge {C} : Node C :=
  Tooltip "Repo is less than 1 year old" SparklesIcon.

Definition freshBadge {C} : Node C :=
  Tooltip "Published in the last 30 days" BellPlusIcon.

Section DateFns.

(** [differenceInDays(later, earlier)] of date-fns: the number of full days
    from the second date to the first. *)
Variable differenceInDays : Date -> Date -> Z.

(** [!!tool.firstCommitDate && differenceInDays(today, tool.firstCommitDate) <= 365] *)
Definition isNew (today : Date) (tool : ToolMany) : bool :=
  match firstCommitDate tool with
  | Some d => (differenceInDays today d <=? 365)%Z
  | None => false
  end.

(** [!!tool.publishedAt && differenceInDays(today, tool.publishedAt) <= 30] *)
Definition isFresh (today : Date) (tool : ToolMany) : bool :=
  match publishedAt tool with
  | Some d => (differenceInDays today d <=? 30)%Z
  | None => false
  end.

Definition ToolBadges {C} (today : Date) (tool : ToolMany)
  (children : list C) : list (Node C) :=
  ((if isNew today tool then [newBadge] else [])
   ++ (if isFresh today tool then [freshBadge] else [])
   ++ map Child children)%list.

End DateFns.

(** *** Counting days *)

Definition msPerDay : Z := 86400000.

(** [compareLocalAsc(a, b)]: the sign of the comparison of two dates. *)
Definition compareLocalAsc (a b : Date) : Z :=
  match (a ?= b)%Z with
  | Lt => (-1)%Z
  | Eq => 0%Z
  | Gt => 1%Z
  end.

(** [startOfDay(d)]: midnight of the day of [d]. *)
Definition startOfDay (d : Date) : Date := (d - d mod msPerDay)%Z.

(** [differenceInCalendarDays(later, earlier)]: the number of midnights
    between the two dates. *)
Definition differenceInCalendarDays (later earlier : Date) : Z :=
  ((startOfDay later - startOfDay earlier) / msPerDay)%Z.

(** Modelled from the spec: [differenceInDays] of date-fns is imported by the
    badges component and is not part of the sources.  The tool's "publish/
    commit dates" are compared with today in days: date-fns counts the full
    days between the two dates, as follows.  The calendar days are counted,
    the later date is moved back by that many days, and a last day that is
    not full is taken off; the result has the sign of the comparison.  Days
    have 24 hours (the clock of a server, without daylight saving changes). *)
Definition differenceInDays (later earlier : Date) : Z :=
  let sign := compareLocalAsc later earlier in
  let difference := Z.abs (differenceInCalendarDays later earlier) in
  let moved := (later - sign * difference * msPerDay)%Z in
  let isLastDayNotFull :=
    if (compareLocalAsc moved earlier =? - sign)%Z then 1%Z else 0%Z in
  (sign * (difference - isLastDayNotFull))%Z.



End ToolBadges.

(* ===================================================================== *)
(** ** Breadcrumbs *)
(* ===================================================================== *)

Module Breadcrumbs.

(** A node that is not a string. *)
Inductive ReactNode :=
| Home (aria_label : string)     (* <Home aria-label="Home" /> *)
| Element (id : nat).

(** [name: string | ReactNode] *)
Inductive Name :=
| NameString (s : string)
| NameNode (n : ReactNode).

Record Breadcrumb := mkBreadcrumb { href : string; name : Name }.

(** An element of [itemListElement] in the JSON-LD graph. *)
Record ListItem := mkListItem {
  position : nat;
  item_id : string;      (* item["@id"] *)
  item_name : string     (* item.name *)
}.

(** An entry of the rendered [<nav>]. *)
Record NavEntry := mkNavEntry {
  nav_key : nat;
  nav_separator : bool;  (* index > 0 && <BreadcrumbsSeparator /> *)
  nav_href : string;
  nav_child : Name
}.

(** [l.map((x, index) => f(x, index))] *)
Fixpoint mapi_from {A B} (f : A -> nat -> B) (i : nat) (l : list A) : list B :=
  match l with
  | [] => []
  | x :: l' => f x i :: mapi_from f (S i) l'
  end.

Definition mapi {A B} (f : A -> nat -> B) (l : list A) : list B :=
  mapi_from f 0 l.

Definition breadcrumbItems (items : list Breadcrumb) : list Breadcrumb :=
  mkBreadcrumb "/" (NameNode (Home "Home")) :: items.

Definition nav (items : list Breadcrumb) : list NavEntry :=
  mapi (fun b index => mkNavEntry index (0 <? index)%nat (href b) (name b))
       (breadcrumbItems items).

Section Config.

(** [config.site.url] and [config.site.name] *)
Variable site_url : string.
Variable site_name : string.

(** [typeof name === "string" ? name : config.site.name] *)
Definition jsonLd_name (n : Name) : string :=
  match n with
  | NameString s => s
  | NameNode _ => site_name
  end.

(** The [itemListElement] of the [BreadcrumbList] in [jsonLd]. *)
Definition itemListElement (items : list Breadcrumb) : list ListItem :=
  mapi (fun b index =>
          mkListItem (index + 1) (site_url ++ href b) (jsonLd_name (name b)))
       (breadcrumbItems items).

End Config.

End Breadcrumbs.

(* ===================================================================== *)
(** ** AdCard *)
(* ===================================================================== *)

Module AdCard.

(** The fields of [AdOne] the card reads. *)
Record AdOne := mkAd {
  ad_name : string;
  ad_description : string;
  ad_website : string;
  ad_faviconUrl : option string;
  ad_type : string
}.

(** The rendered card: the attributes of the link and the parts shown. *)
Record Card := mkCard {
  overflowClip : bool;             (* isDefault && "overflow-clip" *)
  link_href : string;
  link_target : option string;
  link_rel : option string;
  event_url : string;              (* eventProps.url *)
  event_type : string;             (* eventProps.type *)
  adBadge : bool;                  (* <Badge variant="outline">Ad</Badge> *)
  heading : string;
  card_description : string;
  buttonLabel : string;
  logoSymbol : bool
}.

(** [s.startsWith(p)] *)
Definition startsWith (s p : string) : bool := String.prefix p s.

Section Config.

(** [config.ads.defaultAd] and the helper [updateUrlWithSearchParams] of
    ~/utils/queryString, applied to the one parameter [ref]. *)
Variable defaultAd : AdOne.
Variable updateUrlWithSearchParams : string -> string -> string -> string.

Definition AdCard (ad : option AdOne) : Card :=
  let ad := match ad with Some a => a | None => defaultAd end in  (* ad ??= ... *)
  let isDefault := negb (startsWith (ad_website ad) "http") in
  mkCard
    isDefault
    (updateUrlWithSearchParams (ad_website ad) "ref" "openalternative")
    (if isDefault then Some "_self" else None)
    (if negb isDefault then Some "noopener noreferrer nofollow" else None)
    (ad_website ad)
    (ad_type ad)
    (negb isDefault)
    (ad_name ad)
    (ad_description ad)
    (if isDefault then "Advertise" else "Visit " ++ ad_name ad)
    isDefault.

End Config.

End AdCard.

(* ===================================================================== *)
(** ** The rewrites of the Next.js configuration *)
(* ===================================================================== *)

Module NextConfig.

(** The rest of [s] after its first [n] characters. *)
Fixpoint skip (n : nat) (s : string) : string :=
  match n, s with
  | S n', String _ s' => skip n' s'
  | _, _ => s
  end.

(** Position of the first occurrence of [pat] in [s]. *)
Fixpoint first_occurrence (pat s : string) : option nat :=
  if String.prefix pat s then Some 0
  else match s with
       | EmptyString => None
       | String _ s' => option_map S (first_occurrence pat s')
       end.

(** [s.replace(pat, rep)] with a string pattern: the first occurrence of
    [pat] is replaced and the rest of [s] is kept ([rep] holds no [$]
    pattern). *)
Fixpoint replace (pat rep s : string) : string :=
  if String.prefix pat s then rep ++ skip (String.length pat) s
  else match s with
       | EmptyString => EmptyString
       | String c s' => String c (replace pat rep s')
       end.

(** A value of [process.env] inside a template literal. *)
Definition interpolate (v : option string) : string :=
  match v with
  | Some s => s
  | None => "undefined"
  end.

Record Rewrite := mkRewrite { source : string; destination : string }.

(** [rewrites()], given [process.env.NEXT_PUBLIC_POSTHOG_HOST]. *)
Definition rewrites (posthogHost : option string) : list Rewrite :=
  [ mkRewrite "/_proxy/posthog/ingest/static/:path*"
      (interpolate (option_map (replace "us" "us-assets") posthogHost)
       ++ "/static/:path*");
    mkRewrite "/_proxy/posthog/ingest/:path*"
      (interpolate posthogHost ++ "/:path*");
    mkRewrite "/_proxy/posthog/ingest/decide"
      (interpolate posthogHost ++ "/decide");
    mkRewrite "/rss.xml" "/rss/tools.xml";
    mkRewrite "/alternatives/rss.xml" "/rss/alternatives.xml" ].

End NextConfig.

(* ===================================================================== *)
(** * Theorems *)
(* ===================================================================== *)

Section SearchBoxFacts.
Import SearchBox.

Lemma run_app s evs1 evs2 : run s (evs1 ++ evs2) = run (run s evs1) evs2.
Proof. apply fold_left_app. Qed.

Lemma run_cons s e evs : run s (e :: evs) = run (step s e) evs.
Proof. reflexivity. Qed.


(** *** The invariant holds from the mount on *)

Lemma mount_Inv q : Inv (mount q).
Proof.
  unfold Inv, mount; simpl. split; [auto | eauto].
Qed.

Lemma setSearchQuery_Inv v s : Inv s -> Inv (setSearchQuery v s).
Proof.
  unfold setSearchQuery. destruct (String.eqb v (searchQuery s)); [auto|].
  intros [_ Hlast]. unfold Inv, useDebounce_rearm; simpl. auto.
Qed.

Lemma useDebounce_timeout_Inv s : Inv s -> Inv (useDebounce_timeout s).
Proof.
  intros HI. unfold useDebounce_timeout.
  destruct (timer s) as [tm|] eqn:Htm; [|exact HI].
  destruct (armedAt tm + delay <=? now s)%nat; [|exact HI].
  destruct HI as [HT Hlast]. rewrite Htm in HT. destruct HT as (Hc & _ & _).
  unfold setDebouncedValue; simpl.
  destruct (String.eqb_spec (captured tm) (debouncedSearchTerm s)) as [E|NE].
  - unfold Inv; simpl. split; [congruence | exact Hlast].
  - unfold Inv, refine; simpl. split; [exact Hc | eauto].
Qed.

Lemma step_Inv s e : Inv s -> Inv (step s e).
Proof.
  destruct e; simpl.
  - apply setSearchQuery_Inv.
  - apply setSearchQuery_Inv.
  - intros [HT Hlast]. unfold Inv, elapse; simpl. split; [|exact Hlast].
    destruct (timer s); [|exact HT]. destruct HT as (? & ? & ?).
    repeat split; auto. lia.
  - apply useDebounce_timeout_Inv.
Qed.

Lemma run_Inv evs : forall s, Inv s -> Inv (run s evs).
Proof.
  induction evs as [|e evs IH]; intros s HI; [exact HI|].
  rewrite run_cons. apply IH, step_Inv, HI.
Qed.

(** *** No timeout runs before its delay *)

Lemma no_refine_before evs : forall s t0,
  t0 <= now s ->
  (forall tm, timer s = Some tm -> t0 <= armedAt tm) ->
  now s + elapsed evs < t0 + delay ->
  refined (run s evs) = refined s.
Proof.
  induction evs as [|e evs IH]; intros s t0 Hnow Htm Hlt; [reflexivity|].
  rewrite run_cons.
  assert (Hset : forall v, now s + elapsed evs < t0 + delay ->
                           refined (run (setSearchQuery v s) evs) = refined s).
  { intros v Hlt'. unfold setSearchQuery.
    destruct (String.eqb v (searchQuery s)).
    - apply (IH s t0); auto.
    - rewrite (IH (useDebounce_rearm v s) t0); simpl; auto.
      intros tm [= <-]; simpl; auto. }
  destruct e as [v| |d|]; simpl step.
  - apply Hset. exact Hlt.
  - apply Hset. exact Hlt.
  - rewrite (IH (elapse d s) t0); simpl; auto; simpl in Hlt; lia.
  - unfold useDebounce_timeout. destruct (timer s) as [tm|] eqn:E.
    + specialize (Htm tm eq_refl).
      destruct (Nat.leb_spec (armedAt tm + delay) (now s)).
      * simpl in Hlt. lia.
      * apply (IH s t0); auto. rewrite E. intros ? [= <-]. auto.
    + apply (IH s t0); auto. rewrite E. discriminate.
Qed.

(** *** Quiet stretches *)

Lemma quiet_no_timer tail : forall s,
  timer s = None -> forallb quiet tail = true ->
  refined (run s tail) = refined s.
Proof.
  induction tail as [|e tail IH]; intros s Hn Hq; [reflexivity|].
  simpl in Hq. apply andb_prop in Hq as [He Hq]. rewrite run_cons.
  destruct e; try discriminate; simpl step.
  - rewrite IH; auto.
  - unfold useDebounce_timeout. rewrite Hn. auto.
Qed.

Lemma quiet_pending tail : forall s tm,
  timer s = Some tm -> forallb quiet tail = true ->
  refined (run s tail) = refined s
  \/ exists t, armedAt tm + delay <= t
       /\ captured tm <> debouncedSearchTerm s
       /\ refined (run s tail) = (t, captured tm) :: refined s.
Proof.
  induction tail as [|e tail IH]; intros s tm Htm Hq; [left; reflexivity|].
  simpl in Hq. apply andb_prop in Hq as [He Hq]. rewrite run_cons.
  destruct e; try discriminate; simpl step.
  - destruct (IH (elapse d s) tm Htm Hq) as [H|H]; [left|right]; exact H.
  - unfold useDebounce_timeout. rewrite Htm.
    destruct (Nat.leb_spec (armedAt tm + delay) (now s)) as [Hle|Hgt].
    + unfold setDebouncedValue; simpl.
      destruct (String.eqb_spec (captured tm) (debouncedSearchTerm s)) as [E|NE].
      * left. rewrite quiet_no_timer; auto.
      * right. exists (now s). repeat split; auto.
        rewrite quiet_no_timer; auto.
    + apply IH; auto.
Qed.

Lemma quiet_gap g : forall s tm,
  timer s = Some tm -> forallb quiet g = true ->
  now s + elapsed g < armedAt tm + delay ->
  let s' := run s g in
  now s' = now s + elapsed g /\ searchQuery s' = searchQuery s
  /\ debouncedSearchTerm s' = debouncedSearchTerm s
  /\ timer s' = timer s /\ refined s' = refined s.
Proof.
  induction g as [|e g IH]; intros s tm Htm Hq Hlt; simpl.
  - repeat split; auto.
  - simpl in Hq. apply andb_prop in Hq as [He Hq].
    destruct e; try discriminate.
    + simpl in Hlt.
      destruct (IH (elapse d s) tm Htm Hq) as (H1 & H2 & H3 & H4 & H5);
        [simpl; lia|].
      simpl in *. fold (run (elapse d s) g).
      repeat split; auto. rewrite H1. lia.
    + simpl in Hlt. simpl step. unfold useDebounce_timeout. rewrite Htm.
      destruct (Nat.leb_spec (armedAt tm + delay) (now s)); [lia|].
      pose proof (IH s tm Htm Hq Hlt) as HH. cbv zeta in HH.
      rewrite Htm in HH. exact HH.
Qed.

Lemma elapsed_app evs1 evs2 :
  elapsed (evs1 ++ evs2) = elapsed evs1 + elapsed evs2.
Proof.
  induction evs1 as [|[] evs1 IH]; simpl; auto. lia.
Qed.

Lemma typing_cons v g ks : typing ((v, g) :: ks) = Change v :: g ++ typing ks.
Proof. reflexivity. Qed.

(** A burst of rapid typing submits nothing and leaves the timeout of its
    last keystroke pending. *)
Lemma rapid_burst ks : forall s vlast,
  rapid (searchQuery s) ks vlast = true ->
  let s' := run s (typing ks ++ [Change vlast]) in
  now s' = now s + elapsed (typing ks)
  /\ searchQuery s' = vlast
  /\ debouncedSearchTerm s' = debouncedSearchTerm s
  /\ timer s' = Some (mkTimer (now s') vlast)
  /\ refined s' = refined s.
Proof.
  induction ks as [|[v g] ks IH]; intros s vlast Hr; simpl in Hr.
  - simpl. unfold setSearchQuery.
    destruct (String.eqb vlast (searchQuery s)); [discriminate|].
    simpl. repeat split; auto.
  - repeat (apply andb_prop in Hr as [Hr ?]).
    rewrite typing_cons, <- app_comm_cons, <- app_assoc.
    rewrite run_cons, run_app. simpl step. unfold setSearchQuery.
    destruct (String.eqb v (searchQuery s)); [discriminate|].
    set (s1 := useDebounce_rearm v s).
    destruct (quiet_gap g s1 (mkTimer (now s) v)) as (G1 & G2 & G3 & G4 & G5);
      auto.
    { simpl. apply Nat.ltb_lt in H0. lia. }
    destruct (IH (run s1 g) vlast) as (I1 & I2 & I3 & I4 & I5).
    { rewrite G2. exact H. }
    cbv zeta in *. repeat split.
    + rewrite I1, G1. simpl. rewrite elapsed_app. lia.
    + exact I2.
    + rewrite I3, G3. reflexivity.
    + exact I4.
    + rewrite I5, G5. reflexivity.
Qed.


Lemma useDebounce_timeout_searchQuery s :
  searchQuery (useDebounce_timeout s) = searchQuery s.
Proof.
  unfold useDebounce_timeout. destruct (timer s) as [tm|]; [|reflexivity].
  destruct (armedAt tm + delay <=? now s)%nat; [|reflexivity].
  unfold setDebouncedValue; simpl.
  destruct (String.eqb (captured tm) (debouncedSearchTerm s)); reflexivity.
Qed.

(** A submission is always the work of a timeout that ran: at that moment
    the text has been at its current value for at least [delay] ms, and it is
    this value that is submitted. *)
Lemma refine_only_after_quiet q evs e :
  let s := run (mount q) evs in
  refined (step s e) <> refined s ->
  e = Fire /\ lastChange s + delay <= now s
  /\ refined (step s e) = (now s, searchQuery s) :: refined s.
Proof.
  intros s Hne. pose proof (run_Inv evs _ (mount_Inv q)) as [HT _].
  fold s in HT. destruct e as [v| |d|]; simpl in Hne.
  - exfalso. apply Hne. unfold setSearchQuery.
    destruct (String.eqb v (searchQuery s)); reflexivity.
  - exfalso. apply Hne. unfold setSearchQuery.
    destruct (String.eqb "" (searchQuery s)); reflexivity.
  - exfalso. apply Hne. reflexivity.
  - simpl. unfold useDebounce_timeout in *.
    destruct (timer s) as [tm|]; [|congruence].
    destruct HT as (Hc & Ha & _).
    destruct (Nat.leb_spec (armedAt tm + delay) (now s)); [|congruence].
    unfold setDebouncedValue in *; simpl in *.
    destruct (String.eqb (captured tm) (debouncedSearchTerm s));
      [simpl in Hne; congruence|].
    simpl. rewrite <- Ha, <- Hc. auto.
Qed.

(** C1.  After any change of the text in the search box, nothing is submitted
    to the search index ([refine] is not called) for as long as less than
    250 ms have passed, whatever else happens in the meantime (further
    keystrokes, resets, attempts to run the timeout). *)
Theorem C1_no_query_before_quiet_period s e evs :
  searchQuery (step s e) <> searchQuery s ->
  elapsed evs < delay ->
  refined (run (step s e) evs) = refined s.
Proof.
  intros Hch Hlt.
  assert (Hset : forall v, searchQuery (setSearchQuery v s) <> searchQuery s ->
                           refined (run (setSearchQuery v s) evs) = refined s).
  { intros v. unfold setSearchQuery.
    destruct (String.eqb v (searchQuery s)); [congruence|]. intros _.
    rewrite (no_refine_before evs (useDebounce_rearm v s) (now s)); simpl; auto.
    - intros tm [= <-]. simpl. auto.
    - lia. }
  destruct e as [v| |d|]; simpl in Hch.
  - apply Hset, Hch.
  - apply Hset, Hch.
  - congruence.
  - rewrite useDebounce_timeout_searchQuery in Hch. congruence.
Qed.

Lemma C1_no_query_before_quiet_period_witness :
  let evs := [Elapse 100; Fire; Change "ab"; Elapse 149; Fire] in
  searchQuery (step (mount "") (Change "a")) <> searchQuery (mount "")
  /\ elapsed evs < delay
  /\ refined (run (step (mount "") (Change "a")) evs) = [(0, "")].
Proof.
  assert (H1 : searchQuery (step (mount "") (Change "a"))
               <> searchQuery (mount "")) by (simpl; discriminate).
  assert (H2 : elapsed [Elapse 100; Fire; Change "ab"; Elapse 149; Fire]
               < delay) by (apply Nat.ltb_lt; reflexivity).
  split; [exact H1|]. split; [exact H2|].
  exact (C1_no_query_before_quiet_period (mount "") (Change "a") _ H1 H2).
Defined.

(** C7.  When text values are typed with less than 250 ms between
    consecutive changes, nothing is submitted during the burst, and while the
    input is then left alone at most one query is submitted: the final value,
    no sooner than 250 ms after the last keystroke.  No intermediate value is
    submitted. *)
Theorem C7_rapid_typing_submits_only_final_value s ks vlast tail :
  rapid (searchQuery s) ks vlast = true ->
  forallb quiet tail = true ->
  let s' := run s (typing ks ++ Change vlast :: tail) in
  refined s' = refined s
  \/ exists t, now s + elapsed (typing ks) + delay <= t
       /\ refined s' = (t, vlast) :: refined s.
Proof.
  intros Hr Hq s'. subst s'.
  replace (typing ks ++ Change vlast :: tail)%list
    with ((typing ks ++ [Change vlast]) ++ tail)%list
    by (rewrite <- app_assoc; reflexivity).
  rewrite run_app.
  destruct (rapid_burst ks s vlast Hr) as (B1 & B2 & B3 & B4 & B5).
  set (s1 := run s (typing ks ++ [Change vlast])) in *.
  destruct (quiet_pending tail s1 _ B4 Hq) as [H|(t & Ht & _ & H)].
  - left. congruence.
  - right. exists t. simpl in *. split; [lia|]. congruence.
Qed.

Lemma C7_rapid_typing_submits_only_final_value_witness :
  let ks := [("a", [Elapse 100; Fire]); ("ab", [Elapse 120])] in
  rapid (searchQuery (mount "")) ks "abc" = true
  /\ forallb quiet [Elapse 250; Fire] = true
  /\ refined (run (mount "") (typing ks ++ Change "abc" :: [Elapse 250; Fire]))
     = [(470, "abc"); (0, "")].
Proof.
  split; [reflexivity|]. split; [reflexivity|].
  destruct (C7_rapid_typing_submits_only_final_value (mount "")
              [("a", [Elapse 100; Fire]); ("ab", [Elapse 120])] "abc"
              [Elapse 250; Fire] eq_refl eq_refl) as [H|H];
    reflexivity.
Defined.

(** The burst is not lost: once the input has been left alone for [delay]
    ms and the timeout runs, the final value is submitted, unless it is the
    term already in force. *)
Lemma rapid_typing_then_quiet_submits_final_value s ks vlast d :
  rapid (searchQuery s) ks vlast = true ->
  delay <= d ->
  vlast <> debouncedSearchTerm s ->
  refined (run s (typing ks ++ Change vlast :: [Elapse d; Fire]))
  = (now s + elapsed (typing ks) + d, vlast) :: refined s.
Proof.
  intros Hr Hd Hne.
  replace (typing ks ++ Change vlast :: [Elapse d; Fire])%list
    with ((typing ks ++ [Change vlast]) ++ [Elapse d; Fire])%list
    by (rewrite <- app_assoc; reflexivity).
  rewrite run_app.
  destruct (rapid_burst ks s vlast Hr) as (B1 & B2 & B3 & B4 & B5).
  set (s1 := run s (typing ks ++ [Change vlast])) in *.
  simpl. unfold useDebounce_timeout. simpl. rewrite B4. simpl.
  destruct (Nat.leb_spec (now s1 + delay) (now s1 + d)); [|lia].
  unfold setDebouncedValue. simpl. rewrite B3.
  destruct (String.eqb_spec vlast (debouncedSearchTerm s)); [contradiction|].
  simpl. rewrite B1, B5. reflexivity.
Qed.

(** C5, the claim as stated, fails: the text "a" is typed and the form is
    reset 100 ms later.  The debounced term never left the empty string, so
    however long the input is then left alone no query is submitted. *)
Lemma C5_reset_submits_empty_counterexample :
  ~ reset_submits_empty (run (mount "") [Change "a"; Elapse 100]).
Proof.
  intros [_ (tail & t & Hq & Hr)].
  set (s1 := step (run (mount "") [Change "a"; Elapse 100]) Reset) in *.
  destruct (quiet_pending tail s1 (mkTimer 100 "") eq_refl Hq)
    as [H|(t' & _ & Hne & _)].
  - rewrite H in Hr. discriminate Hr.
  - apply Hne. reflexivity.
Qed.

(** C5, amended.  On every state the mounted component can reach, the reset
    action clears the text to the empty string and submits nothing at that
    moment.  Once at least 250 ms pass without input and the timeout runs,
    the debounced term is the empty string; [refine("")] is called then if
    the debounced term was not empty before, and no query is issued if it
    was already empty.  Either way the query last submitted is then the
    empty string. *)
Theorem C5_reset_clears_then_debounces q evs d :
  delay <= d ->
  let s := run (mount q) evs in
  let s1 := step s Reset in
  let s2 := run s1 [Elapse d; Fire] in
  searchQuery s1 = ""
  /\ refined s1 = refined s
  /\ debouncedSearchTerm s2 = ""
  /\ (debouncedSearchTerm s <> "" -> refined s2 = (now s + d, "") :: refined s)
  /\ (debouncedSearchTerm s = "" -> refined s2 = refined s)
  /\ exists t rest, refined s2 = (t, "") :: rest.
Proof.
  intros Hd s s1 s2.
  pose proof (run_Inv evs _ (mount_Inv q)) as HI. fold s in HI.
  assert (HI2 : Inv s2).
  { unfold s2, s1. apply run_Inv, step_Inv, HI. }
  assert (H1 : searchQuery s1 = "" /\ refined s1 = refined s
               /\ debouncedSearchTerm s1 = debouncedSearchTerm s
               /\ now s1 = now s
               /\ match timer s1 with
                  | Some tm => captured tm = "" /\ armedAt tm <= now s
                  | None => debouncedSearchTerm s = ""
                  end).
  { unfold s1; simpl; unfold setSearchQuery.
    destruct (String.eqb_spec "" (searchQuery s)) as [E|NE].
    - destruct HI as [HT _]. repeat split; auto.
      destruct (timer s) as [tm|]; [|congruence].
      destruct HT as (? & ? & ?). split; [congruence|auto].
    - simpl. repeat split; auto. }
  destruct H1 as (Hq & Hr & Hdeb & Hnow & Ht).
  assert (H2 : debouncedSearchTerm s2 = ""
               /\ (debouncedSearchTerm s <> "" ->
                   refined s2 = (now s + d, "") :: refined s)
               /\ (debouncedSearchTerm s = "" -> refined s2 = refined s)).
  { unfold s2; simpl; unfold useDebounce_timeout; simpl.
    destruct (timer s1) as [tm|].
    - destruct Ht as [Hc Ha].
      destruct (Nat.leb_spec (armedAt tm + delay) (now s1 + d)); [|lia].
      unfold setDebouncedValue; simpl. rewrite Hc, Hdeb.
      destruct (String.eqb_spec "" (debouncedSearchTerm s)) as [E|NE]; simpl.
      + repeat split; try congruence.
      + repeat split; try congruence.
    - simpl. repeat split; try congruence. }
  destruct H2 as (Hd2 & Hcall & Hnocall).
  repeat split; auto.
  destruct HI2 as [_ (t & rest & Hl)]. rewrite Hd2 in Hl. eauto.
Qed.

Lemma C5_reset_clears_then_debounces_witness :
  let s := run (mount "") [Change "a"; Elapse 300; Fire; Elapse 1000] in
  delay <= 250
  /\ debouncedSearchTerm s = "a"
  /\ searchQuery (step s Reset) = ""
  /\ refined (run (step s Reset) [Elapse 250; Fire])
     = [(1550, ""); (300, "a"); (0, "")].
Proof.
  assert (Hd : delay <= 250) by (apply Nat.leb_le; reflexivity).
  destruct (C5_reset_clears_then_debounces ""
              [Change "a"; Elapse 300; Fire; Elapse 1000] 250 Hd)
    as (H1 & _ & _ & H4 & _).
  split; [exact Hd|]. split; [reflexivity|]. split; [exact H1|].
  rewrite H4; [reflexivity | discriminate].
Defined.

End SearchBoxFacts.

(* ===================================================================== *)

Section AlternativePageFacts.
Import AlternativePage.

(** *** Strings *)

Lemma append_assoc (a b c : string) : (a ++ b) ++ c = a ++ (b ++ c).
Proof.
  induction a as [|x a IH]; simpl; [reflexivity | rewrite IH; reflexivity].
Qed.

Lemma prefix_append (a b : string) : String.prefix a (a ++ b) = true.
Proof.
  induction a as [|x a IH]; simpl; [destruct b; reflexivity|].
  destruct (ascii_dec x x); [exact IH | congruence].
Qed.

(** *** Metadata *)

(** C8.  The title of the page metadata starts with the tool count followed
    by a space when the count is greater than 1, and is the bare "Best Open
    Source ... Alternatives in <year>" for the counts 0 and 1; so it is
    prefixed with the count if and only if the count exceeds 1. *)
Theorem C8_title_count_prefix today alternative :
  let n := alt_count_tools alternative in
  let base := "Best Open Source " ++ alt_name alternative
              ++ " Alternatives in "
              ++ string_of_nat (getYear_addMonths today 1) in
  let t := title (getMetadata today alternative) in
  (1 < n -> t = string_of_nat n ++ " " ++ base)
  /\ (n <= 1 -> t = base)
  /\ (String.prefix (string_of_nat n ++ " ") t = true <-> 1 < n).
Proof.
  intros n base t. unfold t, getMetadata; simpl title. fold n. fold base.
  destruct (Nat.ltb_spec 1 n) as [Hgt|Hle].
  - split; [intros _; apply append_assoc|].
    split; [intros; lia|].
    split; [auto | intros _; apply prefix_append].
  - split; [intros; lia|]. split; [reflexivity|].
    split; [|intros; lia]. intros Hp. exfalso.
    assert (Hn : n = 0 \/ n = 1) by lia.
    destruct Hn as [-> | ->]; unfold base in Hp; simpl in Hp; discriminate.
Qed.

(** *** Record lookup *)

(** C6.  When the data layer has no alternative for the requested slug, the
    detail page, and the metadata generated for it, end with the not-found
    response; nothing is rendered. *)
Theorem C6_missing_alternative_is_not_found
  (findAlternative : string -> option Alternative)
  (findToolsWithCategories : string -> list Tool) today slug :
  findAlternative slug = None ->
  getAlternative findAlternative slug = NotFound
  /\ AlternativePage findAlternative findToolsWithCategories today slug
     = NotFound
  /\ generateMetadata findAlternative today slug = NotFound.
Proof.
  intros H. unfold AlternativePage, generateMetadata, getAlternative.
  rewrite H. simpl. auto.
Qed.

Lemma C6_missing_alternative_is_not_found_witness :
  let findAlternative := fun slug : string =>
    if String.eqb slug "notion"
    then Some (mkAlternative "Notion" "notion" 0) else None in
  findAlternative "nothing" = None
  /\ AlternativePage findAlternative (fun _ => []) (mkDate 2025 0 1) "nothing"
     = NotFound.
Proof.
  split; [reflexivity|].
  apply (C6_missing_alternative_is_not_found
           (fun slug : string =>
              if String.eqb slug "notion"
              then Some (mkAlternative "Notion" "notion" 0) else None)
           (fun _ => []) (mkDate 2025 0 1) "nothing" eq_refl).
Defined.

(** A record that exists is rendered. *)
Lemma found_alternative_is_rendered
  (findAlternative : string -> option Alternative)
  (findToolsWithCategories : string -> list Tool) today slug alternative :
  findAlternative slug = Some alternative ->
  AlternativePage findAlternative findToolsWithCategories today slug
  = Rendered (render today alternative (findToolsWithCategories slug)).
Proof.
  intros H. unfold AlternativePage, getAlternative. rewrite H. reflexivity.
Qed.

(** *** The page of an alternative without tools *)

(** The message depends on the record's tool count, the section on the
    list of tools. *)
Lemma render_none_found today alternative tools :
  (section (render today alternative tools) = None <-> tools = [])
  /\ (alt_count_tools alternative = 0 ->
      introDescription (render today alternative tools)
      = "No open source " ++ alt_name alternative ++ " alternatives found yet.").
Proof.
  unfold render; simpl. split.
  - destruct tools; simpl; split; intros; try reflexivity; discriminate.
  - intros ->. reflexivity.
Qed.

(** C4.  For an alternative with zero associated tools (its tool count is 0
    and the tool query returns no tool) the page shows the message "No open
    source ... alternatives found yet." and has no tool-list section. *)
Theorem C4_no_tools_none_found today alternative tools :
  alt_count_tools alternative = 0 ->
  tools = [] ->
  introDescription (render today alternative tools)
  = "No open source " ++ alt_name alternative ++ " alternatives found yet."
  /\ section (render today alternative tools) = None.
Proof.
  intros Hc Ht. destruct (render_none_found today alternative tools) as [H1 H2].
  split; [apply H2, Hc | apply H1, Ht].
Qed.

Lemma C4_no_tools_none_found_witness :
  let alternative := mkAlternative "Notion" "notion" 0 in
  alt_count_tools alternative = 0
  /\ introDescription (render (mkDate 2025 0 1) alternative [])
     = "No open source Notion alternatives found yet."
  /\ section (render (mkDate 2025 0 1) alternative []) = None.
Proof.
  split; [reflexivity|].
  apply (C4_no_tools_none_found (mkDate 2025 0 1)
           (mkAlternative "Notion" "notion" 0) [] eq_refl eq_refl).
Defined.

(** *** The top-5 slice *)

Lemma slice_length {A} (start end_ : nat) (l : list A) :
  List.length (slice start end_ l)
  = Nat.min (end_ - start) (List.length l - start).
Proof.
  unfold slice. rewrite length_firstn, length_skipn. reflexivity.
Qed.

(** C3.  However many tools there are, the list of best tools has at most 5
    entries (exactly [min 5 (number of tools)]), and so have the links the
    page renders from it: the first one and the ones enumerated after it. *)
Theorem C3_best_tools_at_most_five today alternative tools :
  List.length (bestTools tools) = Nat.min 5 (List.length tools)
  /\ List.length (bestTools tools) <= 5
  /\ forall v, section (render today alternative tools) = Some v ->
       bestTool v = hd_error (bestTools tools)
       /\ otherToolLinks v = tl (bestTools tools)
       /\ 1 + List.length (otherToolLinks v) = List.length (bestTools tools).
Proof.
  assert (Hlen : List.length (bestTools tools) = Nat.min 5 (List.length tools)).
  { unfold bestTools. rewrite length_map, slice_length. f_equal; lia. }
  split; [exact Hlen|]. split; [lia|].
  intros v. unfold render; simpl.
  destruct tools as [|t tools]; simpl; [discriminate|].
  intros [= <-]. simpl. auto.
Qed.

(** *** Sorted lists *)

Lemma StronglySorted_app {A} (R : A -> A -> Prop) l1 l2 :
  StronglySorted R l1 -> StronglySorted R l2 ->
  (forall a b, In a l1 -> In b l2 -> R a b) ->
  StronglySorted R (l1 ++ l2).
Proof.
  induction l1 as [|x l1 IH]; intros H1 H2 Hc; simpl; [exact H2|].
  inversion H1 as [|? ? Hs Hf]; subst. constructor.
  - apply IH; auto. intros a b Ha Hb. apply Hc; simpl; auto.
  - apply Forall_app. split; [exact Hf|].
    apply Forall_forall. intros b Hb. apply Hc; simpl; auto.
Qed.

Lemma StronglySorted_impl_in {A} (P Q : A -> A -> Prop) l :
  (forall a b, In a l -> In b l -> P a b -> Q a b) ->
  StronglySorted P l -> StronglySorted Q l.
Proof.
  induction l as [|x l IH]; intros HPQ HS; [constructor|].
  inversion HS as [|? ? Hs Hf]; subst. constructor.
  - apply IH; auto. intros a b Ha Hb. apply HPQ; simpl; auto.
  - rewrite Forall_forall in *. intros b Hb.
    apply HPQ; simpl; auto.
Qed.

Lemma StronglySorted_filter {A} (R : A -> A -> Prop) (p : A -> bool) l :
  StronglySorted R l -> StronglySorted R (filter p l).
Proof.
  induction 1 as [|x l Hs IH Hf]; simpl; [constructor|].
  destruct (p x); [|exact IH]. constructor; [exact IH|].
  rewrite Forall_forall in *. intros b Hb.
  apply filter_In in Hb as [Hb _]. auto.
Qed.

Lemma StronglySorted_map {A B} (R : B -> B -> Prop) (f : A -> B) l :
  StronglySorted (fun a b => R (f a) (f b)) l -> StronglySorted R (map f l).
Proof.
  induction 1 as [|x l Hs IH Hf]; simpl; constructor; [exact IH|].
  rewrite Forall_forall in *. intros b Hb.
  apply in_map_iff in Hb as (a & <- & Ha). auto.
Qed.

(** In a sorted list, an element that comes first is related to every later
    one. *)
Lemma StronglySorted_earlier {A} (R : A -> A -> Prop) l1 a l2 b l3 :
  StronglySorted R (l1 ++ a :: l2 ++ b :: l3) -> R a b.
Proof.
  induction l1 as [|x l1 IH]; simpl; intros HS;
    inversion HS as [|? ? Hs Hf]; subst; [|auto].
  rewrite Forall_forall in Hf. apply Hf.
  apply in_or_app. right. simpl. auto.
Qed.

Section Sorting.
Context {A : Type} (before : A -> A -> bool).
Hypothesis before_total : forall x y, before x y = true \/ before y x = true.
Hypothesis before_trans :
  forall x y z, before x y = true -> before y z = true -> before x z = true.

Lemma insert_perm x l : Permutation (insert before x l) (x :: l).
Proof.
  induction l as [|y l IH]; simpl; [reflexivity|].
  destruct (before x y); [reflexivity|].
  rewrite IH. apply perm_swap.
Qed.

Lemma sort_perm l : Permutation (sort before l) l.
Proof.
  induction l as [|x l IH]; simpl; [reflexivity|].
  rewrite insert_perm. constructor. exact IH.
Qed.

Lemma insert_sorted x l :
  StronglySorted (fun a b => before a b = true) l ->
  StronglySorted (fun a b => before a b = true) (insert before x l).
Proof.
  induction 1 as [|y l Hs IH Hf]; simpl; [repeat constructor|].
  destruct (before x y) eqn:E.
  - constructor; [constructor; assumption|].
    constructor; [exact E|].
    rewrite Forall_forall in *. intros b Hb. eapply before_trans; eauto.
  - constructor; [exact IH|].
    rewrite Forall_forall in *. intros b Hb.
    apply (Permutation_in _ (insert_perm x l)) in Hb.
    destruct Hb as [<- | Hb]; [|auto].
    destruct (before_total x y) as [H|H]; congruence.
Qed.

Lemma sort_sorted l :
  StronglySorted (fun a b => before a b = true) (sort before l).
Proof.
  induction l as [|x l IH]; simpl; [constructor | apply insert_sorted, IH].
Qed.

(** Stability: the elements selected by [p], all of which may precede one
    another, come out of the sort in the order in which they went in. *)
Lemma insert_stable (p : A -> bool) x l :
  (forall a b, p a = true -> p b = true -> before a b = true) ->
  filter p (insert before x l) = filter p (x :: l).
Proof.
  intros Hp. induction l as [|y l IH]; simpl; [reflexivity|].
  destruct (before x y) eqn:E; [reflexivity|].
  simpl in *. rewrite IH.
  destruct (p x) eqn:Ex, (p y) eqn:Ey; try reflexivity.
  rewrite (Hp x y Ex Ey) in E. discriminate.
Qed.

Lemma sort_stable (p : A -> bool) l :
  (forall a b, p a = true -> p b = true -> before a b = true) ->
  filter p (sort before l) = filter p l.
Proof.
  intros Hp. induction l as [|x l IH]; simpl; [reflexivity|].
  rewrite insert_stable by exact Hp. simpl. rewrite IH. reflexivity.
Qed.

End Sorting.

(** *** The accumulator object *)

Lemma own_None acc k : own acc k = None <-> ~ In k (map fst acc).
Proof.
  induction acc as [|[k' e'] acc IH]; simpl; [tauto|].
  destruct (String.eqb_spec k k') as [->|NE].
  - split; [discriminate | intros H; exfalso; apply H; auto].
  - rewrite IH. split; [intros H [E|HI]; [congruence|auto] | tauto].
Qed.

Lemma own_In acc k e : own acc k = Some e -> In (k, e) acc.
Proof.
  induction acc as [|[k' e'] acc IH]; simpl; [discriminate|].
  destruct (String.eqb_spec k k') as [->|NE]; [intros [= ->]; auto | auto].
Qed.

Lemma In_own acc k e :
  NoDup (map fst acc) -> In (k, e) acc -> own acc k = Some e.
Proof.
  induction acc as [|[k' e'] acc IH]; simpl; intros HN HI; [contradiction|].
  inversion HN as [|? ? Hnotin HN']; subst.
  destruct HI as [[= -> ->]|HI].
  - rewrite String.eqb_refl. reflexivity.
  - destruct (String.eqb_spec k k') as [->|NE]; [|auto].
    exfalso. apply Hnotin. apply (in_map fst) in HI. exact HI.
Qed.

Lemma obj_set_new acc k e :
  own acc k = None -> obj_set acc k e = (acc ++ [(k, e)])%list.
Proof.
  induction acc as [|[k' e'] acc IH]; simpl; [reflexivity|].
  destruct (String.eqb k k'); [discriminate|].
  intros H. rewrite IH by exact H. reflexivity.
Qed.

Lemma obj_incr_absent acc k : own acc k = None -> obj_incr acc k = acc.
Proof.
  induction acc as [|[k' e'] acc IH]; simpl; [reflexivity|].
  destruct (String.eqb k k'); [discriminate|].
  intros H. rewrite IH by exact H. reflexivity.
Qed.

Lemma obj_incr_new acc k e :
  own acc k = None ->
  obj_incr (acc ++ [(k, e)])%list k
  = (acc ++ [(k, mkEntry (count e + 1) (category e))])%list.
Proof.
  induction acc as [|[k' e'] acc IH]; simpl.
  - rewrite String.eqb_refl. reflexivity.
  - destruct (String.eqb k k'); [discriminate|].
    intros H. rewrite IH by exact H. reflexivity.
Qed.

Lemma obj_incr_keys acc k : map fst (obj_incr acc k) = map fst acc.
Proof.
  induction acc as [|[k' e'] acc IH]; simpl; [reflexivity|].
  destruct (String.eqb k k'); simpl; [reflexivity | rewrite IH; reflexivity].
Qed.

Lemma own_obj_incr acc k k' :
  own (obj_incr acc k) k'
  = if String.eqb k' k
    then option_map (fun e => mkEntry (count e + 1) (category e)) (own acc k)
    else own acc k'.
Proof.
  induction acc as [|[k0 e0] acc IH]; simpl.
  - destruct (String.eqb k' k); reflexivity.
  - destruct (String.eqb_spec k k0) as [->|NE]; simpl.
    + destruct (String.eqb k' k0); reflexivity.
    + destruct (String.eqb_spec k' k0) as [E|NE'].
      * destruct (String.eqb_spec k' k); [congruence | reflexivity].
      * exact IH.
Qed.

Lemma own_snoc acc k e k' :
  own (acc ++ [(k, e)])%list k'
  = match own acc k' with
    | Some x => Some x
    | None => if String.eqb k' k then Some e else None
    end.
Proof.
  induction acc as [|[k0 e0] acc IH]; simpl; [reflexivity|].
  destruct (String.eqb k' k0); [reflexivity | exact IH].
Qed.

(** *** Encounter order *)

Lemma first_index_app_in k l l' :
  In k l -> first_index k (l ++ l') = first_index k l.
Proof.
  induction l as [|x l IH]; simpl; [contradiction|].
  destruct (String.eqb_spec k x) as [->|NE]; [reflexivity|].
  intros [E|HI]; [congruence|]. rewrite IH by exact HI. reflexivity.
Qed.

Lemma first_index_lt k l : In k l -> first_index k l < List.length l.
Proof.
  induction l as [|x l IH]; simpl; [contradiction|].
  destruct (String.eqb_spec k x) as [->|NE]; [lia|].
  intros [E|HI]; [congruence|]. apply IH in HI. lia.
Qed.

Lemma first_index_new k l :
  ~ In k l -> first_index k (l ++ [k]) = List.length l.
Proof.
  induction l as [|x l IH]; simpl; intros H.
  - rewrite String.eqb_refl. reflexivity.
  - destruct (String.eqb_spec k x) as [->|NE]; [tauto|].
    rewrite IH by tauto. reflexivity.
Qed.

Lemma count_occ_snoc (l : list string) k k' :
  count_occ string_dec (l ++ [k]) k'
  = count_occ string_dec l k' + (if String.eqb k' k then 1 else 0).
Proof.
  rewrite count_occ_app. simpl.
  destruct (string_dec k k') as [->|NE].
  - rewrite String.eqb_refl. reflexivity.
  - destruct (String.eqb_spec k' k); [congruence | reflexivity].
Qed.

(** *** What the reduction accumulates *)

Lemma Accumulated_keys ns acc k :
  Accumulated ns acc -> In k (map fst acc) -> In k ns.
Proof.
  intros (_ & HE & _ & _) Hk.
  destruct (own acc k) as [e|] eqn:Ho.
  - apply (HE k e Ho).
  - apply own_None in Ho. contradiction.
Qed.

Lemma Accumulated_order ns acc k :
  Accumulated ns acc ->
  StronglySorted (fun a b => first_index a (ns ++ [k]) < first_index b (ns ++ [k]))
    (map fst acc).
Proof.
  intros HA. pose proof HA as (_ & _ & _ & HS).
  eapply StronglySorted_impl_in; [|exact HS].
  intros a b Ha Hb H. simpl in *.
  rewrite !first_index_app_in by (eapply Accumulated_keys; eauto). exact H.
Qed.

Lemma visit_Accumulated ns acc c :
  Accumulated ns acc ->
  Accumulated (ns ++ [category_name c]) (visit acc c).
Proof.
  intros HA. pose proof HA as (HN & HE & HAb & HS).
  pose proof (Accumulated_order ns acc (category_name c) HA) as HS'.
  unfold visit, obj_get.
  remember (category_name c) as k eqn:Hk.
  destruct (own acc k) as [e|] eqn:Ho; [|destruct (inherited k) eqn:Hinh];
    simpl truthy; simpl negb; cbv iota.
  - (* the name is an own property: its count goes up *)
    split; [|split; [|split]].
    + rewrite obj_incr_keys. exact HN.
    + intros k0 e0 H. rewrite own_obj_incr in H. rewrite count_occ_snoc.
      destruct (String.eqb_spec k0 k) as [E|NE].
      * subst k0. rewrite Ho in H. simpl in H. injection H as <-.
        destruct (HE k e Ho) as (H1 & H2 & H3). unfold entry_name in *.
        simpl. rewrite H2. repeat split; auto.
        apply in_or_app. auto.
      * destruct (HE k0 e0 H) as (H1 & H2 & H3).
        repeat split; auto; [lia | apply in_or_app; auto].
    + intros k' Hn Hi Hin. rewrite own_obj_incr in Hn.
      destruct (String.eqb_spec k' k) as [E|NE].
      * subst k'. rewrite Ho in Hn. discriminate.
      * apply in_app_or in Hin as [Hin|[E|[]]]; [|congruence].
        apply (HAb k' Hn Hi Hin).
    + rewrite obj_incr_keys. exact HS'.
  - (* the name is an inherited member: nothing is recorded *)
    rewrite obj_incr_absent by exact Ho.
    split; [|split; [|split]].
    + exact HN.
    + intros k0 e0 H. rewrite count_occ_snoc.
      destruct (String.eqb_spec k0 k) as [E|NE]; [congruence|].
      destruct (HE k0 e0 H) as (H1 & H2 & H3).
      repeat split; auto; [lia | apply in_or_app; auto].
    + intros k' Hn Hi Hin.
      apply in_app_or in Hin as [Hin|[E|[]]]; [|congruence].
      apply (HAb k' Hn Hi Hin).
    + exact HS'.
  - (* a new name: a property with count 1 is created after the others *)
    rewrite obj_set_new by exact Ho. rewrite obj_incr_new by exact Ho.
    assert (Hnotin : ~ In k ns) by (apply HAb; assumption).
    split; [|split; [|split]].
    + rewrite map_app. simpl.
      apply (Permutation_NoDup (Permutation_cons_append (map fst acc) k)).
      constructor; [apply own_None, Ho | exact HN].
    + intros k0 e0 H. rewrite own_snoc in H. rewrite count_occ_snoc.
      destruct (own acc k0) as [x|] eqn:Ho0.
      * injection H as <-.
        destruct (String.eqb_spec k0 k) as [E|NE]; [congruence|].
        destruct (HE k0 x Ho0) as (H1 & H2 & H3).
        repeat split; auto; [lia | apply in_or_app; auto].
      * destruct (String.eqb_spec k0 k) as [E|NE]; [|discriminate].
        subst k0. injection H as <-. unfold entry_name. simpl.
        rewrite (proj1 (count_occ_not_In string_dec ns k) Hnotin).
        repeat split; auto. apply in_or_app. simpl. auto.
    + intros k' Hn Hi Hin. rewrite own_snoc in Hn.
      destruct (own acc k') eqn:Ho'; [discriminate|].
      destruct (String.eqb_spec k' k) as [E|NE]; [discriminate|].
      apply in_app_or in Hin as [Hin|[E|[]]]; [|congruence].
      apply (HAb k' Ho' Hi Hin).
    + rewrite map_app. simpl. apply StronglySorted_app.
      * exact HS'.
      * repeat constructor.
      * intros a b Ha [<-|[]].
        pose proof (Accumulated_keys ns acc a HA Ha) as Hin.
        rewrite first_index_app_in by exact Hin.
        rewrite first_index_new by exact Hnotin.
        apply first_index_lt, Hin.
Qed.

Lemma empty_Accumulated : Accumulated [] [].
Proof.
  repeat split; simpl; try constructor; try discriminate. auto.
Qed.

Lemma fold_visit_Accumulated cs :
  Accumulated (map category_name cs) (fold_left visit cs []).
Proof.
  induction cs as [|c cs IH] using rev_ind; [apply empty_Accumulated|].
  rewrite fold_left_app, map_app. simpl. apply visit_Accumulated, IH.
Qed.

Lemma reduce_visit tools acc :
  fold_left reducer tools acc
  = fold_left visit (flat_map tool_categories tools) acc.
Proof.
  revert acc. induction tools as [|t tools IH]; intros acc; simpl;
    [reflexivity|].
  rewrite fold_left_app. apply IH.
Qed.

Lemma names_flat_map tools :
  names tools = map category_name (flat_map tool_categories tools).
Proof.
  unfold names. induction tools as [|t tools IH]; simpl; [reflexivity|].
  rewrite map_app, IH. reflexivity.
Qed.

Lemma reduce_Accumulated tools :
  Accumulated (names tools) (fold_left reducer tools []).
Proof.
  rewrite reduce_visit, names_flat_map. apply fold_visit_Accumulated.
Qed.

(** *** The order of [Object.values] *)

Lemma StronglySorted_map_inv {A B} (R : B -> B -> Prop) (f : A -> B) l :
  StronglySorted R (map f l) -> StronglySorted (fun a b => R (f a) (f b)) l.
Proof.
  induction l as [|x l IH]; simpl; intros HS; [constructor|].
  inversion HS as [|? ? Hs Hf]; subst. constructor; [auto|].
  rewrite Forall_forall in *. intros b Hb. apply Hf, in_map, Hb.
Qed.

Lemma Accumulated_entry ns acc p :
  Accumulated ns acc -> In p acc ->
  entry_name (snd p) = fst p
  /\ count (snd p) = count_occ string_dec ns (fst p).
Proof.
  intros (HN & HE & _ & _) Hin. destruct p as [k e]. simpl.
  destruct (HE k e (In_own acc k e HN Hin)) as (H1 & H2 & _). auto.
Qed.

Lemma enumeration_In acc p : In p (enumeration acc) -> In p acc.
Proof.
  unfold enumeration. intros H. apply in_app_or in H as [H|H].
  - apply (Permutation_in _ (sort_perm _ _)) in H.
    apply filter_In in H. tauto.
  - apply filter_In in H. tauto.
Qed.

Lemma enumeration_order ns acc :
  Accumulated ns acc ->
  StronglySorted (fun p q => own_order ns (fst p) (fst q)) (enumeration acc).
Proof.
  intros HA. pose proof HA as (_ & _ & _ & HS).
  unfold enumeration. apply StronglySorted_app.
  - (* the array indices, in ascending order *)
    eapply StronglySorted_impl_in; [|apply sort_sorted].
    + intros p q Hp Hq H. simpl in H.
      apply (Permutation_in _ (sort_perm _ _)) in Hp, Hq.
      apply filter_In in Hp as [_ Hp]. apply filter_In in Hq as [_ Hq].
      unfold own_order, is_index, index_of in *.
      destruct (array_index (fst p)); [|discriminate].
      destruct (array_index (fst q)); [|discriminate].
      apply N.leb_le, H.
    + intros x y. destruct (N.leb_spec (index_of x) (index_of y)); auto.
      right. apply N.leb_le. lia.
    + intros x y z H1 H2. apply N.leb_le in H1, H2. apply N.leb_le. lia.
  - (* the other names, in the order of their creation *)
    apply StronglySorted_map_inv in HS.
    eapply StronglySorted_impl_in; [|apply StronglySorted_filter, HS].
    intros p q Hp Hq H. simpl in H.
    apply filter_In in Hp as [_ Hp]. apply filter_In in Hq as [_ Hq].
    unfold own_order, is_index in *.
    destruct (array_index (fst p)); [discriminate|].
    destruct (array_index (fst q)); [discriminate|]. exact H.
  - intros p q Hp Hq.
    apply (Permutation_in _ (sort_perm _ _)) in Hp.
    apply filter_In in Hp as [_ Hp]. apply filter_In in Hq as [_ Hq].
    unfold own_order, is_index in *.
    destruct (array_index (fst p)); [|discriminate].
    destruct (array_index (fst q)); [discriminate|]. exact I.
Qed.

Lemma Object_values_order ns acc :
  Accumulated ns acc ->
  StronglySorted (fun a b => own_order ns (entry_name a) (entry_name b))
    (Object_values acc).
Proof.
  intros HA. unfold Object_values. apply StronglySorted_map.
  eapply StronglySorted_impl_in; [|apply enumeration_order, HA].
  intros p q Hp Hq H. simpl in *.
  destruct (Accumulated_entry ns acc p HA (enumeration_In _ _ Hp)) as [-> _].
  destruct (Accumulated_entry ns acc q HA (enumeration_In _ _ Hq)) as [-> _].
  exact H.
Qed.

Lemma Object_values_count ns acc e :
  Accumulated ns acc -> In e (Object_values acc) ->
  count e = count_occ string_dec ns (entry_name e).
Proof.
  intros HA Hin. unfold Object_values in Hin.
  apply in_map_iff in Hin as (p & <- & Hp).
  destruct (Accumulated_entry ns acc p HA (enumeration_In _ _ Hp)) as [-> ->].
  reflexivity.
Qed.

(** *** Occurrences of a name and tools that carry it *)

Lemma NoDup_count_occ_existsb (l : list string) k :
  NoDup l ->
  count_occ string_dec l k = if existsb (String.eqb k) l then 1 else 0.
Proof.
  induction 1 as [|x l Hnotin HN IH]; simpl; [reflexivity|].
  destruct (string_dec x k) as [E|NE].
  - subst x. rewrite String.eqb_refl. simpl.
    rewrite (proj1 (count_occ_not_In string_dec l k) Hnotin). reflexivity.
  - destruct (String.eqb_spec k x) as [E|_]; [congruence|]. exact IH.
Qed.

Lemma count_occ_tools_with tools k :
  well_formed tools ->
  count_occ string_dec (names tools) k = tools_with k tools.
Proof.
  unfold names, tools_with.
  induction 1 as [|t tools Ht Hts IH]; simpl; [reflexivity|].
  rewrite count_occ_app, IH, (NoDup_count_occ_existsb _ k Ht).
  destruct (existsb (String.eqb k) (map category_name (tool_categories t)));
    reflexivity.
Qed.

(** *** The category ranking *)

Lemma categories_count tools e :
  In e (categories tools) ->
  count e = count_occ string_dec (names tools) (entry_name e).
Proof.
  unfold categories, sort_by_count. intros Hin.
  apply (Permutation_in _ (sort_perm _ _)) in Hin.
  apply (Object_values_count _ _ _ (reduce_Accumulated tools) Hin).
Qed.

Lemma categories_descending tools :
  StronglySorted (fun a b => count b <= count a) (categories tools).
Proof.
  unfold categories, sort_by_count.
  eapply StronglySorted_impl_in; [|apply sort_sorted].
  - intros a b _ _ H. apply Nat.leb_le, H.
  - intros x y. destruct (Nat.leb_spec (count y) (count x)); auto.
    right. apply Nat.leb_le. lia.
  - intros x y z H1 H2. apply Nat.leb_le in H1, H2. apply Nat.leb_le. lia.
Qed.

Lemma categories_ties tools l1 a l2 b l3 :
  categories tools = (l1 ++ a :: l2 ++ b :: l3)%list ->
  count a = count b ->
  own_order (names tools) (entry_name a) (entry_name b).
Proof.
  intros Hr Hab.
  set (p := fun e : Entry => (count e =? count a)%nat).
  assert (Hst : filter p (categories tools)
                = filter p (Object_values (fold_left reducer tools []))).
  { unfold categories, sort_by_count. apply sort_stable.
    intros x y Hx Hy. unfold p in *.
    apply Nat.eqb_eq in Hx, Hy. apply Nat.leb_le. lia. }
  pose proof (StronglySorted_filter _ p _
                (Object_values_order _ _ (reduce_Accumulated tools))) as HS.
  rewrite <- Hst, Hr in HS.
  rewrite filter_app in HS. simpl in HS. rewrite filter_app in HS.
  simpl in HS. unfold p at 2 4 in HS.
  rewrite Nat.eqb_refl, <- Hab, Nat.eqb_refl in HS.
  apply (StronglySorted_earlier _ _ _ _ _ _ HS).
Qed.

(** C2, the claim as stated, fails: a single tool carries the categories
    "b" and "1", in this order.  Both count one tool, "b" is met first, and
    the ranking lists "1" before "b", because the property "1" of the
    accumulator object is an array index. *)
Lemma C2_ranking_counterexample :
  ~ ranked_by_count_then_encounter
      [mkTool "t1" "Tool" "tool" None
         [mkCategory "c1" "b" "b" None; mkCategory "c2" "1" "1" None]].
Proof.
  intros H.
  assert (Hne : [mkTool "t1" "Tool" "tool" None
                   [mkCategory "c1" "b" "b" None; mkCategory "c2" "1" "1" None]]
                <> []) by discriminate.
  assert (Hwf : well_formed
                  [mkTool "t1" "Tool" "tool" None
                     [mkCategory "c1" "b" "b" None;
                      mkCategory "c2" "1" "1" None]]).
  { repeat constructor; simpl; intuition discriminate. }
  destruct (H Hne Hwf [] (mkEntry 1 (mkCategory "c2" "1" "1" None)) []
              (mkEntry 1 (mkCategory "c1" "b" "b" None)) [] eq_refl)
    as [_ Hties].
  specialize (Hties eq_refl). vm_compute in Hties. lia.
Qed.

(** C2, amended.  For every tool list in which no tool carries a category
    name twice, wherever a category comes before another one in the ranking
    it has at least as many tools, and when both have equally many they are
    in the order in which the accumulator object enumerates their names:
    names that are array indices first, in ascending numeric order, then the
    other names in the order in which they were first encountered in the tool
    list. *)
Theorem C2_ranking_by_count_then_property_order tools :
  well_formed tools ->
  forall l1 a l2 b l3,
    categories tools = (l1 ++ a :: l2 ++ b :: l3)%list ->
    count a = tools_with (entry_name a) tools
    /\ count b = tools_with (entry_name b) tools
    /\ tools_with (entry_name b) tools <= tools_with (entry_name a) tools
    /\ (tools_with (entry_name a) tools = tools_with (entry_name b) tools ->
        own_order (names tools) (entry_name a) (entry_name b)).
Proof.
  intros Hwf l1 a l2 b l3 Hr.
  assert (Ha : count a = tools_with (entry_name a) tools).
  { rewrite <- count_occ_tools_with by exact Hwf. apply categories_count.
    rewrite Hr. apply in_or_app. right. simpl. auto. }
  assert (Hb : count b = tools_with (entry_name b) tools).
  { rewrite <- count_occ_tools_with by exact Hwf. apply categories_count.
    rewrite Hr. apply in_or_app. right. right.
    apply in_or_app. right. simpl. auto. }
  split; [exact Ha|]. split; [exact Hb|]. rewrite <- Ha, <- Hb. split.
  - pose proof (categories_descending tools) as HS. rewrite Hr in HS.
    apply (StronglySorted_earlier _ _ _ _ _ _ HS).
  - apply (categories_ties tools l1 a l2 b l3 Hr).
Qed.

Lemma C2_ranking_by_count_then_property_order_witness :
  let c n := mkCategory n n n None in
  let tools := [mkTool "t1" "One" "one" None [c "b"; c "a"];
                mkTool "t2" "Two" "two" None [c "a"; c "c"]] in
  well_formed tools
  /\ map entry_name (categories tools) = ["a"; "b"; "c"]
  /\ own_order (names tools) "b" "c".
Proof.
  intros c tools.
  assert (Hwf : well_formed tools).
  { repeat constructor; simpl; intuition discriminate. }
  split; [exact Hwf|]. split; [reflexivity|].
  destruct (C2_ranking_by_count_then_property_order tools Hwf
              [mkEntry 2 (c "a")] (mkEntry 1 (c "b")) []
              (mkEntry 1 (c "c")) [] eq_refl)
    as (_ & _ & _ & H).
  apply H. reflexivity.
Defined.

End AlternativePageFacts.

(* ===================================================================== *)

Section ToolBadgesFacts.
Import ToolBadges.

Variable differenceInDays : Date -> Date -> Z.




End ToolBadgesFacts.

Section ToolBadgesDays.
Import ToolBadges.
Local Open Scope Z_scope.




(** A date that is still to come gets its badge too: a tool published 199
    days after today is "fresh". *)
Lemma future_published_date_is_fresh :
  In (freshBadge (C := unit))
     (ToolBadges differenceInDays 1762041600000
        (mkToolMany None (Some (1762041600000 + 199 * msPerDay))) []).
Proof. left. reflexivity. Qed.


End ToolBadgesDays.

(* ===================================================================== *)

Section BreadcrumbsFacts.
Import Breadcrumbs.

Variable site_url site_name : string.

Lemma mapi_from_length {A B} (f : A -> nat -> B) l : forall i,
  List.length (mapi_from f i l) = List.length l.
Proof.
  induction l as [|x l IH]; intros i; simpl; [reflexivity|].
  rewrite IH. reflexivity.
Qed.

Lemma mapi_from_nth_error {A B} (f : A -> nat -> B) l : forall i n,
  nth_error (mapi_from f i l) n
  = option_map (fun x => f x (i + n)) (nth_error l n).
Proof.
  induction l as [|x l IH]; intros i [|n]; simpl; try reflexivity.
  - rewrite Nat.add_0_r. reflexivity.
  - rewrite IH. rewrite Nat.add_succ_comm. reflexivity.
Qed.

Lemma mapi_from_positions (items : list Breadcrumb) : forall i,
  map position
    (mapi_from (fun b index =>
                  mkListItem (index + 1) (site_url ++ href b)
                    (jsonLd_name site_name (name b))) i items)
  = seq (i + 1) (List.length items).
Proof.
  induction items as [|b items IH]; intros i; simpl; [reflexivity|].
  rewrite IH. reflexivity.
Qed.

(** C10.  Whatever the items, the rendered trail and the JSON-LD list both
    start with the Home entry for "/"; the JSON-LD list has one element per
    rendered entry, in the same order, with the positions 1, 2, ..., n+1;
    and each element names its entry by the entry's own name when that is a
    string and by the site name otherwise. *)
Theorem C10_breadcrumbs (items : list Breadcrumb) :
  hd_error (nav items)
  = Some (mkNavEntry 0 false "/" (NameNode (Home "Home")))
  /\ hd_error (itemListElement site_url site_name items)
     = Some (mkListItem 1 (site_url ++ "/") site_name)
  /\ map position (itemListElement site_url site_name items)
     = seq 1 (List.length items + 1)
  /\ List.length (nav items) = List.length items + 1
  /\ forall i e, nth_error (nav items) i = Some e ->
       exists it,
         nth_error (itemListElement site_url site_name items) i = Some it
         /\ position it = i + 1
         /\ item_id it = site_url ++ nav_href e
         /\ item_name it = match nav_child e with
                           | NameString s => s
                           | NameNode _ => site_name
                           end.
Proof.
  split; [reflexivity|]. split; [reflexivity|]. split; [|split].
  - unfold itemListElement, mapi. rewrite mapi_from_positions.
    unfold breadcrumbItems. simpl List.length. f_equal. lia.
  - unfold nav, mapi. rewrite mapi_from_length. simpl. lia.
  - intros i e. unfold nav, itemListElement, mapi.
    rewrite !mapi_from_nth_error.
    destruct (nth_error (breadcrumbItems items) i) as [b|]; simpl;
      [|discriminate].
    intros [= <-]. eexists. split; [reflexivity|]. simpl. auto.
Qed.

End BreadcrumbsFacts.

(* ===================================================================== *)
(** * Further properties *)
(* ===================================================================== *)

Section SearchBoxMore.
Import SearchBox.

(** X1.  In every state the mounted component reaches, the query last
    submitted to the search index is the current debounced term. *)
Theorem last_submitted_is_debounced_term q evs :
  exists t rest,
    refined (run (mount q) evs)
    = (t, debouncedSearchTerm (run (mount q) evs)) :: rest.
Proof.
  destruct (run_Inv evs _ (mount_Inv q)) as [_ H]. exact H.
Qed.

Lemma step_distinct_neighbours s e :
  Inv s -> distinct_neighbours (refined s) ->
  distinct_neighbours (refined (step s e)).
Proof.
  intros [_ (t & rest & Hlog)] Hd.
  assert (Hset : forall v, distinct_neighbours (refined (setSearchQuery v s))).
  { intros v. unfold setSearchQuery.
    destruct (String.eqb v (searchQuery s)); exact Hd. }
  destruct e as [v| |d|]; simpl step; auto.
  unfold useDebounce_timeout. destruct (timer s) as [tm|]; [|exact Hd].
  destruct (armedAt tm + delay <=? now s)%nat; [|exact Hd].
  unfold setDebouncedValue; simpl.
  destruct (String.eqb_spec (captured tm) (debouncedSearchTerm s)) as [E|NE];
    simpl; [exact Hd|].
  rewrite Hlog in *. simpl. split; [exact NE | exact Hd].
Qed.

(** X2.  The component never submits the same query twice in a row: in the
    log of a run from the mount, no two neighbouring calls of [refine] carry
    the same query. *)
Theorem never_resubmits_same_query q evs :
  distinct_neighbours (refined (run (mount q) evs)).
Proof.
  assert (H : forall s, Inv s -> distinct_neighbours (refined s) ->
                        distinct_neighbours (refined (run s evs))).
  { induction evs as [|e evs IH]; intros s HI Hd; [exact Hd|].
    rewrite run_cons. apply IH; [apply step_Inv, HI|].
    apply step_distinct_neighbours; assumption. }
  apply H; [apply mount_Inv | exact I].
Qed.

(** X3.  Last input wins: from any state the component reaches, once at
    least 250 ms pass without input and the timeout callback runs, no timeout
    is pending, the debounced term is the text in the box, and that text is
    the query last submitted. *)
Theorem quiet_period_settles q evs d :
  delay <= d ->
  let s := run (mount q) evs in
  let s' := run s [Elapse d; Fire] in
  timer s' = None
  /\ searchQuery s' = searchQuery s
  /\ debouncedSearchTerm s' = searchQuery s
  /\ exists t rest, refined s' = (t, searchQuery s) :: rest.
Proof.
  intros Hd s s'.
  pose proof (run_Inv evs _ (mount_Inv q)) as HI. fold s in HI.
  assert (HI' : Inv s') by (apply run_Inv, HI).
  assert (H : timer s' = None /\ searchQuery s' = searchQuery s
              /\ debouncedSearchTerm s' = searchQuery s).
  { unfold s'; simpl; unfold useDebounce_timeout; simpl.
    destruct HI as [HT _]. destruct (timer s) as [tm|] eqn:Et.
    - destruct HT as (Hc & _ & Ha).
      destruct (Nat.leb_spec (armedAt tm + delay) (now s + d)); [|lia].
      unfold setDebouncedValue; simpl.
      destruct (String.eqb_spec (captured tm) (debouncedSearchTerm s));
        simpl; repeat split; congruence.
    - simpl. rewrite Et. auto. }
  destruct H as (H1 & H2 & H3). repeat split; auto.
  destruct HI' as [_ (t & rest & Hl)]. rewrite H3 in Hl. eauto.
Qed.

Lemma quiet_period_settles_witness :
  let s := run (mount "") [Change "a"; Elapse 10; Change "ab"] in
  delay <= 400
  /\ debouncedSearchTerm s = ""
  /\ debouncedSearchTerm (run s [Elapse 400; Fire]) = "ab".
Proof.
  assert (Hd : delay <= 400) by (apply Nat.leb_le; reflexivity).
  split; [exact Hd|]. split; [reflexivity|].
  apply (quiet_period_settles "" [Change "a"; Elapse 10; Change "ab"] 400 Hd).
Defined.

(** X4.  Every submission after the mount is the work of the timeout
    callback: it comes at least 250 ms after the text last changed and
    carries the text that is in the box at that moment. *)
Theorem submission_carries_settled_text q evs e :
  refined (step (run (mount q) evs) e) <> refined (run (mount q) evs) ->
  e = Fire
  /\ lastChange (run (mount q) evs) + delay <= now (run (mount q) evs)
  /\ refined (step (run (mount q) evs) e)
     = (now (run (mount q) evs), searchQuery (run (mount q) evs))
       :: refined (run (mount q) evs).
Proof.
  intros H. exact (refine_only_after_quiet q evs e H).
Qed.

Lemma submission_carries_settled_text_witness :
  let s := run (mount "") [Change "a"; Elapse 250] in
  refined (step s Fire) <> refined s
  /\ lastChange s + delay <= now s
  /\ refined (step s Fire) = [(250, "a"); (0, "")].
Proof.
  assert (H : refined (step (run (mount "") [Change "a"; Elapse 250]) Fire)
              <> refined (run (mount "") [Change "a"; Elapse 250]))
    by (simpl; discriminate).
  split; [exact H|].
  destruct (submission_carries_settled_text "" [Change "a"; Elapse 250] Fire H)
    as (_ & H2 & H3).
  split; [exact H2 | exact H3].
Defined.

Lemma setSearchQuery_searchQuery v s : searchQuery (setSearchQuery v s) = v.
Proof.
  unfold setSearchQuery.
  destruct (String.eqb_spec v (searchQuery s)); [congruence | reflexivity].
Qed.

(** X5.  The reset button and the loading spinner are never shown together,
    the reset button is shown only while the box holds text, and right after
    a reset it is hidden and the input is empty, whatever the search status. *)
Theorem reset_button_and_spinner s status :
  resetButton (controls s status) && loaderIcon (controls s status) = false
  /\ (resetButton (controls s status) = true -> searchQuery s <> "")
  /\ resetButton (controls (step s Reset) status) = false
  /\ inputValue (controls (step s Reset) status) = "".
Proof.
  unfold controls; simpl. rewrite setSearchQuery_searchQuery. simpl.
  repeat split.
  - destruct status, (String.length (searchQuery s)); reflexivity.
  - intros H E. rewrite E in H. discriminate H.
Qed.

End SearchBoxMore.

(* ===================================================================== *)

Section AlternativePageMore.
Import AlternativePage.

(** *** Which categories are ranked *)

Lemma filter_negb_perm {A} (p : A -> bool) l :
  Permutation (filter p l ++ filter (fun x => negb (p x)) l) l.
Proof.
  induction l as [|x l IH]; simpl; [constructor|].
  destruct (p x); simpl.
  - constructor. exact IH.
  - symmetry. apply Permutation_cons_app. symmetry. exact IH.
Qed.

Lemma enumeration_perm acc : Permutation (enumeration acc) acc.
Proof.
  unfold enumeration. rewrite sort_perm. apply filter_negb_perm.
Qed.

Lemma categories_perm tools :
  Permutation (categories tools) (map snd (fold_left reducer tools [])).
Proof.
  unfold categories, sort_by_count, Object_values.
  rewrite sort_perm. apply Permutation_map, enumeration_perm.
Qed.

Lemma Accumulated_names ns acc :
  Accumulated ns acc -> map entry_name (map snd acc) = map fst acc.
Proof.
  intros HA. rewrite map_map. apply map_ext_in. intros p Hp.
  apply (Accumulated_entry ns acc p HA Hp).
Qed.

Lemma categories_names_perm tools :
  Permutation (map entry_name (categories tools))
              (map fst (fold_left reducer tools [])).
Proof.
  rewrite <- (Accumulated_names _ _ (reduce_Accumulated tools)).
  apply Permutation_map, categories_perm.
Qed.

Lemma visit_keys_not_inherited acc c :
  (forall k, In k (map fst acc) -> inherited k = false) ->
  forall k, In k (map fst (visit acc c)) -> inherited k = false.
Proof.
  intros H k. unfold visit, obj_get.
  destruct (own acc (category_name c)) eqn:Ho;
    [|destruct (inherited (category_name c)) eqn:Hi];
    simpl truthy; simpl negb; cbv iota.
  - rewrite obj_incr_keys. apply H.
  - rewrite obj_incr_absent by exact Ho. apply H.
  - rewrite obj_set_new by exact Ho. rewrite obj_incr_new by exact Ho.
    rewrite map_app, in_app_iff. simpl. intros [Hk|[<-|[]]]; auto.
Qed.

Lemma reduce_keys_not_inherited tools k :
  In k (map fst (fold_left reducer tools [])) -> inherited k = false.
Proof.
  rewrite reduce_visit. generalize (flat_map tool_categories tools).
  intros cs. revert k. induction cs as [|c cs IH] using rev_ind.
  - simpl. contradiction.
  - rewrite fold_left_app. simpl. apply visit_keys_not_inherited, IH.
Qed.

Lemma ranked_names tools :
  NoDup (map entry_name (categories tools))
  /\ forall k, In k (map entry_name (categories tools))
               <-> In k (names tools) /\ inherited k = false.
Proof.
  pose proof (reduce_Accumulated tools) as HA.
  pose proof HA as (HN & HE & HAb & _).
  pose proof (categories_names_perm tools) as HP.
  split.
  - apply (Permutation_NoDup (Permutation_sym HP) HN).
  - intros k. split.
    + intros Hk. apply (Permutation_in _ HP) in Hk. split.
      * apply (Accumulated_keys _ _ _ HA Hk).
      * apply (reduce_keys_not_inherited tools k Hk).
    + intros [Hin Hi]. apply (Permutation_in _ (Permutation_sym HP)).
      destruct (own (fold_left reducer tools []) k) as [e|] eqn:Ho.
      * apply own_In in Ho. apply (in_map fst) in Ho. exact Ho.
      * destruct (HAb k Ho Hi Hin).
Qed.

(** X6.  The ranking names every category of the tool list once: a name is
    ranked exactly when some tool carries it and it is not the name of a
    member of [Object.prototype] (such a name is never ranked), and no name is
    ranked twice. *)
Theorem ranking_names_each_category_once tools :
  NoDup (map entry_name (categories tools))
  /\ forall k, In k (map entry_name (categories tools))
               <-> In k (names tools) /\ inherited k = false.
Proof. exact (ranked_names tools). Qed.

(** X7.  The count of a ranked category is the number of times its name
    occurs among the categories of all tools, a tool that lists the name
    twice counting twice; it is never zero. *)
Theorem ranked_count_is_number_of_occurrences tools e :
  In e (categories tools) ->
  count e = count_occ string_dec (names tools) (entry_name e)
  /\ 1 <= count e.
Proof.
  intros Hin. pose proof (categories_count tools e Hin) as Hc.
  split; [exact Hc|]. rewrite Hc.
  apply (count_occ_In string_dec).
  apply (proj1 (proj2 (ranked_names tools) _)).
  apply in_map, Hin.
Qed.

Lemma ranked_count_is_number_of_occurrences_witness :
  let c := mkCategory "c1" "cms" "cms" None in
  let tools := [mkTool "t1" "One" "one" None [c; c]] in
  In (mkEntry 2 c) (categories tools)
  /\ count (mkEntry 2 c) = count_occ string_dec (names tools) "cms"
  /\ tools_with "cms" tools = 1.
Proof.
  intros c tools.
  assert (H : In (mkEntry 2 c) (categories tools)) by (simpl; auto).
  split; [exact H|]. split; [|reflexivity].
  apply (ranked_count_is_number_of_occurrences tools (mkEntry 2 c) H).
Defined.

(** *** The record kept for a name *)

Lemma find_snoc {A} (f : A -> bool) l x :
  find f (l ++ [x])
  = match find f l with
    | Some y => Some y
    | None => if f x then Some x else None
    end.
Proof.
  induction l as [|y l IH]; simpl; [reflexivity|].
  destruct (f y); [reflexivity | exact IH].
Qed.

Lemma find_name_absent cs k :
  ~ In k (map category_name cs) ->
  find (fun c => String.eqb (category_name c) k) cs = None.
Proof.
  induction cs as [|c cs IH]; simpl; [reflexivity|]. intros H.
  destruct (String.eqb_spec (category_name c) k); [tauto|].
  apply IH. tauto.
Qed.

Lemma fold_visit_first cs : forall k e,
  own (fold_left visit cs []) k = Some e ->
  find (fun c => String.eqb (category_name c) k) cs = Some (category e).
Proof.
  induction cs as [|c cs IH] using rev_ind; intros k e; [discriminate|].
  pose proof (fold_visit_Accumulated cs) as (_ & _ & HAb & _).
  rewrite fold_left_app, find_snoc. simpl fold_left.
  remember (fold_left visit cs []) as acc eqn:Hacc. clear Hacc.
  unfold visit, obj_get. remember (category_name c) as kc eqn:Hkc.
  destruct (own acc kc) as [e0|] eqn:Ho;
    [|destruct (inherited kc) eqn:Hi]; simpl truthy; simpl negb; cbv iota.
  - rewrite own_obj_incr.
    destruct (String.eqb_spec k kc) as [E|NE].
    + subst k. rewrite Ho. simpl. intros [= <-]. simpl.
      rewrite (IH kc e0 Ho). reflexivity.
    + intros H. rewrite (IH k e H). reflexivity.
  - rewrite obj_incr_absent by exact Ho. intros H.
    rewrite (IH k e H). reflexivity.
  - rewrite obj_set_new by exact Ho. rewrite obj_incr_new by exact Ho.
    rewrite own_snoc.
    destruct (own acc k) as [x|] eqn:Hok.
    + intros [= <-]. rewrite (IH k x Hok). reflexivity.
    + destruct (String.eqb_spec k kc) as [E|NE]; [|discriminate].
      subst k. intros [= <-]. simpl.
      rewrite find_name_absent by (apply HAb; assumption).
      rewrite Hkc, String.eqb_refl. reflexivity.
Qed.

Lemma count_occ_map_filter (cs : list Category) k :
  count_occ string_dec (map category_name cs) k
  = List.length (filter (fun c => String.eqb (category_name c) k) cs).
Proof.
  induction cs as [|c cs IH]; simpl; [reflexivity|].
  destruct (string_dec (category_name c) k) as [E|NE].
  - rewrite E, String.eqb_refl. simpl. rewrite IH. reflexivity.
  - destruct (String.eqb_spec (category_name c) k); [congruence | exact IH].
Qed.

Lemma nth_error_firstn_lt {A} (l : list A) : forall n i,
  i < n -> nth_error (firstn n l) i = nth_error l i.
Proof.
  induction l as [|x l IH]; intros [|n] [|i] H; simpl; try reflexivity;
    try lia.
  apply IH. lia.
Qed.

Lemma ranked_first_record tools e :
  In e (categories tools) ->
  find (fun c => String.eqb (category_name c) (entry_name e))
       (encountered tools)
  = Some (category e).
Proof.
  intros Hin. pose proof (reduce_Accumulated tools) as HA.
  apply (Permutation_in _ (categories_perm tools)) in Hin.
  apply in_map_iff in Hin as ([k e'] & He & Hp). simpl in He. subst e'.
  destruct (Accumulated_entry _ _ _ HA Hp) as [Hname _]. simpl in Hname.
  destruct HA as (HN & _). apply (In_own _ _ _ HN) in Hp.
  rewrite reduce_visit in Hp. rewrite Hname.
  apply (fold_visit_first _ _ _ Hp).
Qed.

(** X8.  When several category records share a name, the ranking keeps the
    record that is met first in the tool list, and every record with that
    name, the later ones included, adds one to its count.  For the three
    categories at the head of the ranking, the link the page renders takes
    its key, its slug and its text (the label, or the name when there is no
    label) from that first record. *)
Theorem ranked_category_is_first_record tools i e :
  nth_error (categories tools) i = Some e ->
  find (fun c => String.eqb (category_name c) (entry_name e))
       (encountered tools)
  = Some (category e)
  /\ count e
     = List.length (filter (fun c => String.eqb (category_name c) (entry_name e))
                           (encountered tools))
  /\ (i < 3 ->
      nth_error (bestCategories tools) i
      = Some (mkLink (category_id (category e))
                ("/categories/" ++ category_slug (category e))
                (match category_label (category e) with
                 | Some "" | None => category_name (category e)
                 | Some l => l
                 end))).
Proof.
  intros Hi. pose proof (nth_error_In _ _ Hi) as Hin.
  split; [apply ranked_first_record, Hin|]. split.
  - rewrite (categories_count tools e Hin), names_flat_map.
    apply count_occ_map_filter.
  - intros Hlt. unfold bestCategories, slice. simpl skipn.
    rewrite nth_error_map, nth_error_firstn_lt by lia.
    rewrite Hi. reflexivity.
Qed.

Lemma ranked_category_is_first_record_witness :
  let c1 := mkCategory "c1" "cms" "cms" None in
  let c2 := mkCategory "c2" "cms" "content" (Some "Content") in
  let tools := [mkTool "t1" "One" "one" None [c1];
                mkTool "t2" "Two" "two" None [c2]] in
  nth_error (categories tools) 0 = Some (mkEntry 2 c1)
  /\ find (fun c => String.eqb (category_name c) "cms") (encountered tools)
     = Some c1
  /\ bestCategories tools = [mkLink "c1" "/categories/cms" "cms"].
Proof.
  intros c1 c2 tools.
  assert (H : nth_error (categories tools) 0 = Some (mkEntry 2 c1))
    by reflexivity.
  split; [exact H|].
  destruct (ranked_category_is_first_record tools 0 (mkEntry 2 c1) H)
    as (H1 & _ & _).
  split; [exact H1 | reflexivity].
Defined.


(** *** Sentences *)

Lemma enumerate_rest (last : string) n : forall (l : list Link) z i,
  0 < i -> i + List.length l = n - 1 ->
  flat_map
    (fun p : nat * Link =>
       ((if (0 <? fst p)%nat && negb (fst p =? n - 1)%nat
         then [Text ", "] else [])
        ++ (if (0 <? fst p)%nat && (fst p =? n - 1)%nat
            then [Text last] else [])
        ++ [Anchor (snd p)])%list)
    (combine (seq i (List.length (l ++ [z]))) (l ++ [z]))
  = (flat_map (fun x => [Text ", "; Anchor x]) l ++ [Text last; Anchor z])%list.
Proof.
  induction l as [|x l IH]; intros z i Hi Hn; simpl.
  - simpl in Hn. rewrite Nat.add_0_r in Hn. subst i.
    destruct (Nat.ltb_spec 0 (n - 1)); [|lia].
    rewrite Nat.eqb_refl. reflexivity.
  - simpl in Hn.
    destruct (Nat.ltb_spec 0 i); [|lia].
    destruct (Nat.eqb_spec i (n - 1)); [lia|]. simpl.
    rewrite IH by lia. reflexivity.
Qed.

Lemma enumerate_cases (last : string) :
  enumerate last [] = []
  /\ (forall a, enumerate last [a] = [Anchor a])
  /\ forall a l z,
       enumerate last (a :: l ++ [z])
       = (Anchor a :: flat_map (fun x => [Text ", "; Anchor x]) l
            ++ [Text last; Anchor z])%list.
Proof.
  split; [reflexivity|]. split; [reflexivity|].
  intros a l z. unfold enumerate. cbv zeta.
  change (List.length (a :: l ++ [z])) with (S (List.length (l ++ [z]))).
  simpl seq. simpl combine. simpl flat_map. f_equal.
  apply (enumerate_rest last (S (List.length (l ++ [z]))) l z 1); [lia|].
  rewrite length_app. simpl. lia.
Qed.

(** X9.  The links of a sentence are joined the way a list is read: nothing
    before the first link, a comma and a space before each link in the
    middle, and the closing word (" and ", " or ") before the last one; a
    single link stands alone. *)
Theorem enumerate_reads_as_a_list (last : string) :
  enumerate last [] = []
  /\ (forall a, enumerate last [a] = [Anchor a])
  /\ forall a l z,
       enumerate last (a :: l ++ [z])
       = (Anchor a :: flat_map (fun x => [Text ", "; Anchor x]) l
            ++ [Text last; Anchor z])%list.
Proof. exact (enumerate_cases last). Qed.

Lemma anchors_enumerate (last : string) links :
  anchors (enumerate last links) = links.
Proof.
  destruct links as [|a links]; [reflexivity|].
  destruct (enumerate_cases last) as (_ & H1 & H2).
  destruct links as [|b links] using rev_ind; [rewrite H1; reflexivity|].
  rewrite H2. simpl. f_equal.
  clear. induction links as [|x l IH]; simpl; [reflexivity|].
  rewrite IH. reflexivity.
Qed.

(** *** The page of an alternative with tools *)

Lemma nth_error_combine_seq {A} (l : list A) : forall i k,
  nth_error (combine (seq i (List.length l)) l) k
  = option_map (fun x => (i + k, x)) (nth_error l k).
Proof.
  induction l as [|x l IH]; intros i [|k]; simpl; try reflexivity.
  - rewrite Nat.add_0_r. reflexivity.
  - rewrite IH. rewrite Nat.add_succ_comm. reflexivity.
Qed.

(** X10.  The page lists every tool, not only the best five: the tool
    entries are the whole tool list and the inline menu has one item per
    tool, in the same order, with the tool's slug and name; the first three
    items, and only they, carry a medal: amber, slate and orange. *)
Theorem menu_lists_every_tool_with_three_medals today alternative tools v :
  section (render today alternative tools) = Some v ->
  toolEntries v = tools
  /\ List.length (inlineMenu v) = List.length tools
  /\ forall i t, nth_error tools i = Some t ->
       nth_error (inlineMenu v) i
       = Some (mkMenuItem (tool_slug t) (tool_name t)
                 match i with
                 | 0 => Some "text-amber-500"
                 | 1 => Some "text-slate-400"
                 | 2 => Some "text-orange-700"
                 | _ => None
                 end).
Proof.
  unfold render; simpl.
  destruct (List.length tools =? 0)%nat; [discriminate|].
  intros [= <-]. simpl. split; [reflexivity|]. split.
  - rewrite length_map, length_combine, length_seq. lia.
  - intros i t Hi. rewrite nth_error_map, nth_error_combine_seq, Hi. simpl.
    destruct i as [|[|[|i]]]; reflexivity.
Qed.

Lemma menu_lists_every_tool_with_three_medals_witness :
  let t n := mkTool n n n None [] in
  let tools := [t "a"; t "b"; t "c"; t "d"] in
  exists v,
    section (render (mkDate 2025 0 1) (mkAlternative "Notion" "notion" 4) tools)
    = Some v
    /\ map menu_medal (inlineMenu v)
       = [Some "text-amber-500"; Some "text-slate-400";
          Some "text-orange-700"; None].
Proof.
  intros t tools. eexists. split; [reflexivity|].
  destruct (menu_lists_every_tool_with_three_medals (mkDate 2025 0 1)
              (mkAlternative "Notion" "notion" 4) tools _ eq_refl)
    as (_ & _ & _).
  reflexivity.
Defined.

(** X11.  When there is at least one tool the section is rendered, the tool
    named as the best alternative is the first tool of the list, linked by
    its slug, the sentence that follows enumerates the next tools of the
    top five in their order, and the title passed to the share buttons is
    the title of the page metadata. *)
Theorem best_alternative_is_first_tool today alternative t tools :
  exists v,
    section (render today alternative (t :: tools)) = Some v
    /\ bestTool v = Some (mkLink (tool_id t) ("/" ++ tool_slug t) (tool_name t))
    /\ anchors (otherTools v)
       = map (fun x => mkLink (tool_id x) ("/" ++ tool_slug x) (tool_name x))
             (firstn 4 tools)
    /\ shareTitle v = title (getMetadata today alternative).
Proof.
  unfold render. simpl. eexists. split; [reflexivity|]. simpl.
  split; [reflexivity|]. split; [|reflexivity].
  apply anchors_enumerate.
Qed.

(** X12.  The category the page names first ("are mainly ...") is the head
    of the ranking, and no ranked category has a higher count than it. *)
Theorem main_category_has_highest_count today alternative tools v e rest :
  section (render today alternative tools) = Some v ->
  categories tools = e :: rest ->
  option_map link_key (mainCategory v) = Some (category_id (category e))
  /\ option_map link_href (mainCategory v)
     = Some ("/categories/" ++ category_slug (category e))
  /\ Forall (fun e' => count e' <= count e) rest.
Proof.
  intros Hs Hc. pose proof (categories_descending tools) as HS.
  rewrite Hc in HS. inversion HS as [|? ? _ Hf]; subst.
  unfold render in Hs; simpl in Hs.
  destruct (List.length tools =? 0)%nat; [discriminate|].
  injection Hs as <-. simpl. unfold bestCategories. rewrite Hc.
  simpl. auto.
Qed.

Lemma main_category_has_highest_count_witness :
  let c n := mkCategory n n n None in
  let tools := [mkTool "t1" "One" "one" None [c "b"; c "a"];
                mkTool "t2" "Two" "two" None [c "a"]] in
  exists v,
    section (render (mkDate 2025 0 1) (mkAlternative "Notion" "notion" 2) tools)
    = Some v
    /\ categories tools = [mkEntry 2 (c "a"); mkEntry 1 (c "b")]
    /\ option_map link_key (mainCategory v) = Some "a".
Proof.
  intros c tools. eexists. split; [reflexivity|]. split; [reflexivity|].
  apply (main_category_has_highest_count (mkDate 2025 0 1)
           (mkAlternative "Notion" "notion" 2) tools _
           (mkEntry 2 (c "a")) [mkEntry 1 (c "b")] eq_refl eq_refl).
Defined.

(** X13.  The message of the intro follows the tool count of the record and
    the section follows the list of tools, independently of one another: the
    message is the "none found" one exactly when the count is 0, and the
    section is absent exactly when the list is empty. *)
Theorem intro_follows_count_and_section_follows_list today alternative tools :
  (introDescription (render today alternative tools)
   = "No open source " ++ alt_name alternative ++ " alternatives found yet."
   <-> alt_count_tools alternative = 0)
  /\ (section (render today alternative tools) = None <-> tools = []).
Proof.
  split; [|apply render_none_found].
  unfold render; simpl.
  destruct (alt_count_tools alternative) as [|n]; simpl.
  - split; reflexivity.
  - split; intros H; discriminate H.
Qed.

(** *** The year of the title *)

Lemma getYear_addMonths_refines today n :
  0 < n -> getYear (addMonths today n) = getYear_addMonths today n.
Proof.
  intros Hn. unfold getYear, addMonths, getYear_addMonths, endOfMonth.
  destruct (Nat.eqb_spec n 0) as [E|NE]; [lia|]. simpl.
  destruct (_ <=? _)%nat; reflexivity.
Qed.

(** X14.  The year at the end of the metadata title is the year of the date
    one month ahead of today, as date-fns computes it, whatever the day of
    the month: for a date in December the title ends with the next year,
    for any other month with the current year. *)
Theorem title_year_is_year_of_next_month today alternative :
  date_month today <= 11 ->
  getYear (addMonths today 1)
  = (if (date_month today =? 11)%nat then date_year today + 1
     else date_year today)
  /\ title (getMetadata today alternative)
     = (if (1 <? alt_count_tools alternative)%nat
        then string_of_nat (alt_count_tools alternative) ++ " " else "")
       ++ "Best Open Source " ++ alt_name alternative ++ " Alternatives in "
       ++ string_of_nat (getYear (addMonths today 1)).
Proof.
  intros Hm. split.
  - unfold getYear, addMonths, endOfMonth. simpl.
    assert (Hy : date_year today + (date_month today + 1) / 12
                 = if (date_month today =? 11)%nat then date_year today + 1
                   else date_year today).
    { destruct (Nat.eqb_spec (date_month today) 11) as [E|NE].
      - rewrite E. reflexivity.
      - rewrite Nat.div_small by lia. lia. }
    destruct (_ <=? _)%nat; simpl; exact Hy.
  - unfold getMetadata. simpl title.
    rewrite <- (getYear_addMonths_refines today 1) by lia. reflexivity.
Qed.

Lemma title_year_is_year_of_next_month_witness :
  date_month (mkDate 2025 11 31) <= 11
  /\ addMonths (mkDate 2025 0 31) 1 = mkDate 2025 1 28
  /\ title (getMetadata (mkDate 2025 11 31) (mkAlternative "Notion" "notion" 3))
     = "3 Best Open Source Notion Alternatives in 2026".
Proof.
  assert (H : date_month (mkDate 2025 11 31) <= 11) by (simpl; lia).
  split; [exact H|]. split; [reflexivity|].
  destruct (title_year_is_year_of_next_month (mkDate 2025 11 31)
              (mkAlternative "Notion" "notion" 3) H) as [_ Ht].
  rewrite Ht. reflexivity.
Defined.

End AlternativePageMore.

(* ===================================================================== *)

Section ToolBadgesMore.
Import ToolBadges.

Variable differenceInDays : Date -> Date -> Z.

(** X15.  The children passed to the component are always rendered, all of
    them and in their order, after the badges; there are at most two badges,
    "new" before "fresh"; and a tool with neither date gets no badge. *)
Theorem badges_come_before_children {C} today tool (children : list C) :
  exists badges : list (Node C),
    ToolBadges differenceInDays today tool children
    = (badges ++ map Child children)%list
    /\ (badges = [] \/ badges = [newBadge] \/ badges = [freshBadge]
        \/ badges = [newBadge; freshBadge])
    /\ (firstCommitDate tool = None -> publishedAt tool = None ->
        badges = []).
Proof.
  unfold ToolBadges, isNew, isFresh.
  destruct (firstCommitDate tool) as [d1|], (publishedAt tool) as [d2|];
    try destruct (differenceInDays today d1 <=? 365)%Z;
    try destruct (differenceInDays today d2 <=? 30)%Z;
    simpl;
    (exists [newBadge; freshBadge] + exists [newBadge] + exists [freshBadge]
     + exists []);
    (split; [reflexivity|]); (split; [tauto | intros; discriminate || reflexivity]).
Qed.

End ToolBadgesMore.

(* ===================================================================== *)

Section BreadcrumbsMore.
Import Breadcrumbs.

Variable site_url site_name : string.

Lemma map_mapi_from {A B D} (h : B -> D) (g : A -> nat -> B) l : forall i,
  map h (mapi_from g i l) = mapi_from (fun x j => h (g x j)) i l.
Proof.
  induction l as [|x l IH]; intros i; simpl; [reflexivity|].
  rewrite IH. reflexivity.
Qed.

Lemma mapi_from_map {A B} (f : A -> B) l : forall i,
  mapi_from (fun x _ => f x) i l = map f l.
Proof.
  induction l as [|x l IH]; intros i; simpl; [reflexivity|].
  rewrite IH. reflexivity.
Qed.

Lemma mapi_from_index {A} (l : list A) : forall i,
  mapi_from (fun _ j => j) i l = seq i (List.length l).
Proof.
  induction l as [|x l IH]; intros i; simpl; [reflexivity|].
  rewrite IH. reflexivity.
Qed.

Lemma mapi_from_positive {A} (l : list A) : forall i,
  0 < i ->
  mapi_from (fun _ j => (0 <? j)%nat) i l = repeat true (List.length l).
Proof.
  induction l as [|x l IH]; intros i Hi; simpl; [reflexivity|].
  rewrite IH by lia. destruct (Nat.ltb_spec 0 i); [reflexivity | lia].
Qed.

(** X16.  The rendered trail is Home followed by the items in their order,
    with their links and names unchanged; a separator stands before every
    entry except the first; and the keys of the entries are 0, 1, ..., n. *)
Theorem trail_is_home_then_items (items : list Breadcrumb) :
  map nav_href (nav items) = "/" :: map href items
  /\ map nav_child (nav items) = NameNode (Home "Home") :: map name items
  /\ map nav_separator (nav items) = false :: repeat true (List.length items)
  /\ map nav_key (nav items) = seq 0 (List.length items + 1).
Proof.
  unfold nav, mapi, breadcrumbItems. rewrite !map_mapi_from. simpl.
  repeat split; f_equal.
  - apply mapi_from_map.
  - apply mapi_from_map.
  - apply mapi_from_positive. lia.
  - rewrite mapi_from_index, Nat.add_1_r. reflexivity.
Qed.

(** X17.  Every element of the JSON-LD list is identified by the site URL
    followed by the link of its entry, and items named by strings keep their
    names in the JSON-LD, after the site name that stands for Home. *)
Theorem jsonld_ids_and_string_names (items : list Breadcrumb) :
  map item_id (itemListElement site_url site_name items)
  = map (fun h => site_url ++ h) ("/" :: map href items)
  /\ forall l : list (string * string),
       map item_name
         (itemListElement site_url site_name
            (map (fun p => mkBreadcrumb (fst p) (NameString (snd p))) l))
       = site_name :: map snd l.
Proof.
  unfold itemListElement, mapi, breadcrumbItems. split.
  - rewrite map_mapi_from. simpl. f_equal.
    rewrite mapi_from_map, map_map. reflexivity.
  - intros l. rewrite map_mapi_from. simpl. f_equal.
    rewrite mapi_from_map, map_map. reflexivity.
Qed.

End BreadcrumbsMore.

(* ===================================================================== *)

Section AdCardFacts.
Import AdCard.

Variable defaultAd : AdOne.
Variable updateUrlWithSearchParams : string -> string -> string -> string.

(** X18.  A missing ad is rendered as the configured default ad.  Whether a
    card is an external ad is decided by the website alone: when it starts
    with "http" the card has the "Ad" badge, the rel "noopener noreferrer
    nofollow", no target and no logo symbol, and its button reads "Visit
    <name>"; otherwise it has no badge and no rel, opens in the same tab,
    shows the logo symbol, and its button reads "Advertise".  The click event
    always reports the website as given. *)
Theorem ad_card_is_external_or_house (ad : option AdOne) :
  let shown := match ad with Some a => a | None => defaultAd end in
  let card := AdCard defaultAd updateUrlWithSearchParams ad in
  AdCard defaultAd updateUrlWithSearchParams None
  = AdCard defaultAd updateUrlWithSearchParams (Some defaultAd)
  /\ event_url card = ad_website shown
  /\ (if startsWith (ad_website shown) "http"
      then adBadge card = true
           /\ link_rel card = Some "noopener noreferrer nofollow"
           /\ link_target card = None
           /\ logoSymbol card = false
           /\ buttonLabel card = "Visit " ++ ad_name shown
      else adBadge card = false
           /\ link_rel card = None
           /\ link_target card = Some "_self"
           /\ logoSymbol card = true
           /\ buttonLabel card = "Advertise").
Proof.
  intros shown card. unfold card, AdCard. fold shown. simpl.
  split; [reflexivity|]. split; [reflexivity|].
  destruct (startsWith (ad_website shown) "http"); simpl; auto.
Qed.

End AdCardFacts.

(* ===================================================================== *)

Section NextConfigFacts.
Import NextConfig.

Lemma first_occurrence_eq pat s :
  first_occurrence pat s
  = if String.prefix pat s then Some 0
    else match s with
         | EmptyString => None
         | String _ s' => option_map S (first_occurrence pat s')
         end.
Proof. destruct s; reflexivity. Qed.

Lemma replace_eq pat rep s :
  replace pat rep s
  = if String.prefix pat s then rep ++ skip (String.length pat) s
    else match s with
         | EmptyString => EmptyString
         | String c s' => String c (replace pat rep s')
         end.
Proof. destruct s; reflexivity. Qed.

Lemma prefix_skip pat : forall s,
  String.prefix pat s = true -> s = pat ++ skip (String.length pat) s.
Proof.
  induction pat as [|c pat IH]; intros s H; [destruct s; reflexivity|].
  destruct s as [|c' s]; simpl in H; [discriminate|].
  destruct (ascii_dec c c') as [<-|]; [|discriminate].
  simpl. f_equal. apply IH, H.
Qed.

(** What [replace] does, by the position of the first occurrence. *)
Lemma replace_first_occurrence pat rep s :
  match first_occurrence pat s with
  | None => replace pat rep s = s
  | Some i =>
      exists a b, s = a ++ pat ++ b /\ String.length a = i
                  /\ replace pat rep s = a ++ rep ++ b
  end.
Proof.
  induction s as [|c s IH]; rewrite first_occurrence_eq, replace_eq.
  - destruct (String.prefix pat "") eqn:E; [|reflexivity].
    exists "", (skip (String.length pat) ""). simpl.
    split; [apply prefix_skip, E | auto].
  - destruct (String.prefix pat (String c s)) eqn:E.
    + exists "", (skip (String.length pat) (String c s)).
      split; [apply prefix_skip, E | auto].
    + destruct (first_occurrence pat s) as [i|]; simpl.
      * destruct IH as (a & b & -> & <- & ->).
        exists (String c a), b. auto.
      * rewrite IH. reflexivity.
Qed.

(** No occurrence starts before the first one. *)
Lemma first_occurrence_least pat a : forall b,
  exists i, first_occurrence pat (a ++ pat ++ b) = Some i
            /\ i <= String.length a.
Proof.
  induction a as [|c a IH]; intros b; rewrite first_occurrence_eq.
  - simpl. rewrite prefix_append. exists 0. auto.
  - destruct (String.prefix pat (String c a ++ pat ++ b)).
    + exists 0. split; [reflexivity | lia].
    + simpl. destruct (IH b) as (i & -> & Hi). exists (S i).
      split; [reflexivity | lia].
Qed.

(** X19.  The destination for static assets is the PostHog host with its
    first "us", and only the first, replaced by "us-assets", wherever in the
    host it occurs; a host without "us" is used as it is.  The other two
    PostHog rules always point at the host as configured, and the two feed
    rules do not depend on it. *)
Theorem static_assets_host_replaces_first_us (host : string) :
  exists static,
    map destination (rewrites (Some host))
    = [static ++ "/static/:path*"; host ++ "/:path*"; host ++ "/decide";
       "/rss/tools.xml"; "/rss/alternatives.xml"]
    /\ match first_occurrence "us" host with
       | None =>
           static = host /\ forall a b, host <> a ++ "us" ++ b
       | Some i =>
           (exists a b, host = a ++ "us" ++ b /\ String.length a = i
                        /\ static = a ++ "us-assets" ++ b)
           /\ forall a b, host = a ++ "us" ++ b -> i <= String.length a
       end.
Proof.
  exists (replace "us" "us-assets" host). split; [reflexivity|].
  pose proof (replace_first_occurrence "us" "us-assets" host) as H.
  destruct (first_occurrence "us" host) as [i|] eqn:E.
  - split; [exact H|]. intros a b Hab.
    destruct (first_occurrence_least "us" a b) as (j & Hj & Hle).
    rewrite <- Hab, E in Hj. injection Hj as <-. exact Hle.
  - split; [exact H|]. intros a b Hab.
    destruct (first_occurrence_least "us" a b) as (j & Hj & _).
    rewrite <- Hab, E in Hj. discriminate Hj.
Qed.

End NextConfigFacts.
